(** * API-key authentication and sliding-window rate limiting (auth.py)

    A shallow embedding of [auth.py]: the three module-level dictionaries
    [DEMO_KEYS], [API_KEYS] and [REQUEST_COUNTS] become one explicit state
    record that every function threads through; Python dictionaries are
    finite maps, [HTTPException] is an error value, and the two sources of
    non-determinism ([secrets.token_urlsafe] and the clocks) are inputs of
    the functions that read them. *)

From Stdlib Require Import ZArith QArith Lqa Lia List.
From stdpp Require Import gmap strings list fin_maps.

Local Open Scope Z_scope.

(** ** Python values and dictionaries *)

(** The values that occur in a key record: strings, integers and [None]. *)
Inductive value : Type :=
  | VStr (s : string)
  | VInt (n : Z)
  | VNone.

#[global] Instance value_eq_dec : EqDecision value.
Proof. solve_decision. Defined.

(** A key record is a [dict] with string keys. *)
Abbreviation dict := (gmap string value).

(** ** The module state *)

Record state : Type := mkState {
  DEMO_KEYS : gmap string dict;
  API_KEYS : gmap string dict;
  REQUEST_COUNTS : gmap string (list Q)
}.

(** [DEMO_KEYS] as the module body builds it.  Each entry evaluates
    [datetime.utcnow().isoformat()] on its own, so import reads the clock
    twice. *)
Definition demo_free_record (created : string) : dict :=
  {[ "name" := VStr "Demo Free User"; "tier" := VStr "free";
     "rate_limit" := VInt 10; "created" := VStr created ]}.

Definition demo_pro_record (created : string) : dict :=
  {[ "name" := VStr "Demo Pro User"; "tier" := VStr "pro";
     "rate_limit" := VInt 100; "created" := VStr created ]}.

Definition demo_free_secret : string := "demo-free-key-2026".
Definition demo_pro_secret : string := "demo-pro-key-2026".

(** The state right after [import auth]. *)
Definition initial_state (created_free created_pro : string) : state :=
  {| DEMO_KEYS := {[ demo_free_secret := demo_free_record created_free;
                     demo_pro_secret := demo_pro_record created_pro ]};
     API_KEYS := ∅;
     REQUEST_COUNTS := ∅ |}.

(** ** Key issuance and lookup *)

(** [generate_api_key]: [token] is the value of [secrets.token_urlsafe(32)]. *)
Definition generate_api_key (token : string) : string := "ngcm_" +:+ token.

(** The local table of [create_api_key]. *)
Definition rate_limits : gmap string Z :=
  {[ "free" := 10; "starter" := 60; "pro" := 300; "enterprise" := 1000 ]}.

(** [rate_limits.get(tier, 10)] *)
Definition rate_limit_of (tier : string) : Z := default 10 (rate_limits !! tier).

(** The [key_data] literal of [create_api_key]; [created] is
    [datetime.utcnow().isoformat()]. *)
Definition key_data (name tier created : string) : dict :=
  {[ "name" := VStr name; "tier" := VStr tier;
     "rate_limit" := VInt (rate_limit_of tier); "created" := VStr created;
     "requests_today" := VInt 0; "last_request" := VNone ]}.

(** [create_api_key(name, tier)]: stores [key_data] under the fresh key and
    returns [{"api_key": key, **key_data}] (the entries of [key_data] win
    over the ones written before the [**]). *)
Definition create_api_key (st : state) (name tier token created : string)
  : dict * state :=
  let key := generate_api_key token in
  let kd := key_data name tier created in
  (kd ∪ {[ "api_key" := VStr key ]},
   {| DEMO_KEYS := DEMO_KEYS st;
      API_KEYS := <[ key := kd ]> (API_KEYS st);
      REQUEST_COUNTS := REQUEST_COUNTS st |}).

(** [get_key_info(api_key)]: demo keys first, then registered keys. *)
Definition get_key_info (st : state) (api_key : string) : option dict :=
  match DEMO_KEYS st !! api_key with
  | Some d => Some d
  | None => API_KEYS st !! api_key
  end.

(** ** The two FastAPI dependencies *)

Record HTTPException : Type := mkHTTPException {
  status_code : Z;
  detail : string
}.

Inductive outcome (A : Type) : Type :=
  | Return (a : A)
  | Raise (e : HTTPException).
Arguments Return {A} a.
Arguments Raise {A} e.

(** Python truthiness of the header value: [None] and [""] are falsy. *)
Definition truthy_key (api_key : option string) : bool :=
  match api_key with
  | None => false
  | Some s => negb (String.eqb s "")
  end.

(** Python truthiness of [key_info]: [None] and the empty dict are falsy. *)
Definition truthy_info (key_info : option dict) : bool :=
  match key_info with
  | None => false
  | Some d => negb (bool_decide (d = ∅))
  end.

(** The three exceptions the dependencies raise. *)
Definition invalid_key_optional : HTTPException :=
  mkHTTPException 401 "Invalid API key. Get a free key at /api/register".

Definition missing_key : HTTPException :=
  mkHTTPException 401
    "API key required. Get a free key at /api/register or use demo key: demo-free-key-2026".

Definition invalid_key_required : HTTPException :=
  mkHTTPException 401 "Invalid API key".

(** [verify_api_key]: the header value is [None] when the header is absent
    ([auto_error=False]). *)
Definition verify_api_key (st : state) (api_key : option string)
  : outcome (option dict) :=
  if negb (truthy_key api_key) then Return None
  else
    let key_info := get_key_info st (default "" api_key) in
    if negb (truthy_info key_info) then Raise invalid_key_optional
    else Return key_info.

(** [require_api_key] *)
Definition require_api_key (st : state) (api_key : option string)
  : outcome dict :=
  if negb (truthy_key api_key) then Raise missing_key
  else
    let key_info := get_key_info st (default "" api_key) in
    if negb (truthy_info key_info) then Raise invalid_key_required
    else Return (default ∅ key_info).

(** ** The sliding-window rate limiter *)

(** Readings of [time.time()] are rationals: every float is one, and the
    subtraction [now - 60] is exact on the readings of a running clock. *)
Abbreviation timestamp := Q (only parsing).

(** [t > minute_ago] *)
Definition later_than (minute_ago t : timestamp) : bool := negb (Qle_bool t minute_ago).

(** The list stored for a key, [[]] when there is none yet. *)
Definition window (st : state) (api_key : string) : list timestamp :=
  default [] (REQUEST_COUNTS st !! api_key).

Definition set_window (st : state) (api_key : string) (w : list timestamp) : state :=
  {| DEMO_KEYS := DEMO_KEYS st;
     API_KEYS := API_KEYS st;
     REQUEST_COUNTS := <[ api_key := w ]> (REQUEST_COUNTS st) |}.

(** The comprehension [[t for t in REQUEST_COUNTS[api_key] if t > minute_ago]]. *)
Definition clean (minute_ago : timestamp) (w : list timestamp) : list timestamp :=
  List.filter (later_than minute_ago) w.

(** [check_rate_limit(api_key, limit)]; [now] is the reading of [time.time()]. *)
Definition check_rate_limit (st : state) (api_key : string) (limit : Z) (now : timestamp)
  : bool * state :=
  let minute_ago := (now - 60)%Q in
  let st1 :=
    match REQUEST_COUNTS st !! api_key with
    | None => set_window st api_key []
    | Some _ => st
    end in
  let st2 := set_window st1 api_key (clean minute_ago (window st1 api_key)) in
  if Z.of_nat (length (window st2 api_key)) >=? limit then (false, st2)
  else (true, set_window st2 api_key (window st2 api_key ++ [now])).

(** ** Histories

    The state is only ever changed by [create_api_key] and
    [check_rate_limit]; [get_key_info] and the two dependencies read it.  A
    history is the list of the state-changing calls a process has served,
    each with the values it drew from the token generator and the clocks. *)

Inductive op : Type :=
  | Issue (name tier token created : string)
  | Check (api_key : string) (limit : Z) (now : Q).

Definition step (st : state) (o : op) : state :=
  match o with
  | Issue name tier token created =>
      snd (create_api_key st name tier token created)
  | Check api_key limit now => snd (check_rate_limit st api_key limit now)
  end.

Definition run_ops (st : state) (ops : list op) : state := fold_left step ops st.

(** The readings of [time.time()] along a history, oldest first. *)
Definition clock_readings (ops : list op) : list Q :=
  flat_map (fun o => match o with Check _ _ now => [now] | _ => [] end) ops.

(** A clock that never runs backwards: every reading is at least [t0] and
    at least the reading before it. *)
Fixpoint nondecreasing_from (t0 : Q) (ts : list Q) : Prop :=
  match ts with
  | [] => True
  | t :: ts' => (t0 <= t)%Q /\ nondecreasing_from t ts'
  end.

Definition nondecreasing (ts : list Q) : Prop :=
  match ts with
  | [] => True
  | t :: ts' => nondecreasing_from t ts'
  end.

(** Every [check_rate_limit] call on [k] in the history passes limit [L]. *)
Definition fixed_limit (k : string) (L : Z) (ops : list op) : Prop :=
  Forall (fun o => match o with
                   | Check k' L' _ => k' = k -> L' = L
                   | _ => True
                   end) ops.

(** The instants at which [check_rate_limit] returned [True] for [k] while
    the history [ops] ran from [st], oldest first. *)
Fixpoint admissions (k : string) (st : state) (ops : list op) : list Q :=
  match ops with
  | [] => []
  | o :: ops' =>
      let rest := admissions k (step st o) ops' in
      match o with
      | Check k' L now =>
          if bool_decide (k' = k) && fst (check_rate_limit st k' L now)
          then now :: rest else rest
      | _ => rest
      end
  end.

(** [a <= t < a + 60]: the instant [t] lies in the span of 60 seconds that
    starts at [a]. *)
Definition in_span (a t : Q) : bool := Qle_bool a t && later_than t (a + 60)%Q.

(** How many of the instants [admitted] lie in the span that starts at [a]. *)
Definition in_span_count (a : Q) (admitted : list Q) : Z :=
  Z.of_nat (length (List.filter (in_span a) admitted)).

(** The strings a history takes from callers and from [datetime.utcnow()]:
    owner names, tier names and creation stamps, with the two stamps of the
    demo records. *)
Definition supplied_strings (created_free created_pro : string) (ops : list op)
  : list string :=
  created_free :: created_pro ::
  flat_map (fun o => match o with
                     | Issue name tier _ created => [name; tier; created]
                     | _ => []
                     end) ops.

(** No call of the history draws [token] from the generator. *)
Definition token_unused (token : string) (ops : list op) : Prop :=
  Forall (fun o => match o with
                   | Issue _ _ token' _ => token' <> token
                   | _ => True
                   end) ops.

(** The tier table of the specification, for comparison with [rate_limits]:
    it lists two demo tiers that the code's table does not have. *)
Definition spec_tier_table : gmap string Z :=
  {[ "free" := 10; "starter" := 60; "pro" := 300; "enterprise" := 1000;
     "demo-free" := 10; "demo-pro" := 100 ]}.

Definition spec_requests_per_minute (tier : string) : Z :=
  default 10 (spec_tier_table !! tier).

(** ** Views of a history *)

(** The keys a history passes to [check_rate_limit], oldest first. *)
Definition checked_keys (ops : list op) : list string :=
  flat_map (fun o => match o with Check k _ _ => [k] | _ => [] end) ops.

(** The tokens a history draws from the generator, oldest first. *)
Definition issued_tokens (ops : list op) : list string :=
  flat_map (fun o => match o with Issue _ _ token _ => [token] | _ => [] end) ops.

(** No [create_api_key] call of the history generates the string [s]. *)
Definition secret_not_drawn (s : string) (ops : list op) : Prop :=
  Forall (fun o => match o with
                   | Issue _ _ token _ => generate_api_key token <> s
                   | _ => True
                   end) ops.

Definition is_issue (o : op) : bool :=
  match o with Issue _ _ _ _ => true | _ => false end.

(** The [check_rate_limit] calls on the key [k]. *)
Definition on_key (k : string) (o : op) : bool :=
  match o with Check k' _ _ => bool_decide (k' = k) | _ => false end.

(** ** The key endpoints of main.py *)

(** What the two key endpoints put in a response body: [True]/[False], the
    values of a key record, and a key record as a nested object. *)
Inductive body_value : Type :=
  | BBool (b : bool)
  | BVal (v : value)
  | BDict (d : dict).

(** [register_api_key(name)]: always tier ["free"]; the response literal
    lists ["success"] and ["message"], then [**key_data], then ["usage"]
    and ["upgrade"], later entries overriding earlier ones. *)
Definition register_api_key (st : state) (name token created : string)
  : gmap string body_value * state :=
  let key_data := fst (create_api_key st name "free" token created) in
  (<[ "upgrade" := BVal (VStr "Contact us for higher rate limits") ]>
     (<[ "usage" := BVal (VStr "Add header: X-API-Key: <your-key>") ]>
        ((BVal <$> key_data) ∪
         {[ "success" := BBool true;
            "message" := BVal (VStr
              "API key created! Save it securely - it won't be shown again.") ]})),
   snd (create_api_key st name "free" token created)).

(** [get_api_key_info]: [key_info] comes from the dependency
    [require_api_key], whose exception, if any, is the response. *)
Definition get_api_key_info (st : state) (api_key : option string)
  : outcome (gmap string body_value) :=
  match require_api_key st api_key with
  | Raise e => Raise e
  | Return key_info =>
      Return {[ "success" := BBool true; "key_info" := BDict key_info ]}
  end.

(** ** JSON values as Python handles them

    What the upstream service sends is parsed by [json.loads]: it can be any
    JSON value, and a number can be an integer of any size, a float, or one
    of [Infinity], [-Infinity] and [NaN].  A finite float is the rational it
    stands for.  Objects keep their entries in order. *)

Inductive pyfloat : Type :=
  | FFinite (q : Q)
  | FInf
  | FNegInf
  | FNaN.

#[local] Set Warnings "-register-all".

Inductive json : Type :=
  | JNull
  | JBool (b : bool)
  | JInt (n : Z)
  | JFloat (x : pyfloat)
  | JStr (s : string)
  | JList (l : list json)
  | JObj (o : list (string * json)).

(** The exceptions the operations below can raise. *)
Inductive pyerror : Type :=
  | TypeError
  | AttributeError
  | KeyError.

Inductive py (A : Type) : Type :=
  | Done (a : A)
  | Raised (e : pyerror).
Arguments Done {A} a.
Arguments Raised {A} e.

#[global] Instance py_ret : MRet py := fun A a => Done a.

#[global] Instance py_bind : MBind py :=
  fun A B f m => match m with Done a => f a | Raised e => Raised e end.

(** Truthiness: [None], [False], zero, and the empty string, list and
    object are falsy; [NaN] and the infinities are truthy. *)
Definition truthy (v : json) : bool :=
  match v with
  | JNull => false
  | JBool b => b
  | JInt n => negb (n =? 0)
  | JFloat (FFinite q) => negb (Qeq_bool q 0)
  | JFloat _ => true
  | JStr s => negb (String.eqb s "")
  | JList l => match l with [] => false | _ => true end
  | JObj o => match o with [] => false | _ => true end
  end.

(** [x > n] and the two halves of [a <= x <= b] for a float [x] and integer
    literals; Python compares an integer with a float exactly, and every
    comparison with [NaN] is false. *)
Definition float_gt_int (x : pyfloat) (n : Z) : bool :=
  match x with
  | FFinite q => negb (Qle_bool q (inject_Z n))
  | FInf => true
  | FNegInf => false
  | FNaN => false
  end.

Definition int_le_float (n : Z) (x : pyfloat) : bool :=
  match x with
  | FFinite q => Qle_bool (inject_Z n) q
  | FInf => true
  | FNegInf => false
  | FNaN => false
  end.

Definition float_le_int (x : pyfloat) (n : Z) : bool :=
  match x with
  | FFinite q => Qle_bool q (inject_Z n)
  | FInf => false
  | FNegInf => true
  | FNaN => false
  end.

(** [v > n] for an integer literal [n]: numbers compare ([True] is 1,
    [False] is 0); anything else raises [TypeError]. *)
Definition py_gt_int (v : json) (n : Z) : py bool :=
  match v with
  | JBool b => Done (Z.b2z b >? n)
  | JInt m => Done (m >? n)
  | JFloat x => Done (float_gt_int x n)
  | JNull | JStr _ | JList _ | JObj _ => Raised TypeError
  end.

(** [v == n] for an integer literal [n]; never raises. *)
Definition py_eq_int (v : json) (n : Z) : bool :=
  match v with
  | JBool b => Z.b2z b =? n
  | JInt m => m =? n
  | JFloat (FFinite q) => Qeq_bool q (inject_Z n)
  | _ => false
  end.

(** [v in [n1, n2, ...]] *)
Definition py_in_ints (v : json) (l : list Z) : bool := existsb (py_eq_int v) l.

(** The first binding of [key] in an object. *)
Fixpoint assoc (key : string) (o : list (string * json)) : option json :=
  match o with
  | [] => None
  | (k, v) :: o' => if String.eqb k key then Some v else assoc key o'
  end.

(** [v.get(key, dflt)]: only a dict has the method. *)
Definition py_get (v : json) (key : string) (dflt : json) : py json :=
  match v with
  | JObj o => Done (default dflt (assoc key o))
  | _ => Raised AttributeError
  end.

(** [v[key]] for a string [key]. *)
Definition py_item (v : json) (key : string) : py json :=
  match v with
  | JObj o => match assoc key o with
              | Some x => Done x
              | None => Raised KeyError
              end
  | _ => Raised TypeError
  end.

(** What [for day in v] runs over: the items of a list, the keys of a dict,
    the characters of a string (here its bytes); other values are not
    iterable. *)
Definition py_iter (v : json) : py (list json) :=
  match v with
  | JList l => Done l
  | JObj o => Done (map (fun kv => JStr (fst kv)) o)
  | JStr s => Done (map (fun c => JStr (String c EmptyString))
                      (String.list_ascii_of_string s))
  | _ => Raised TypeError
  end.

(** ** Weather codes (weather_client.py) *)

Definition WEATHER_CODES : gmap Z string :=
  list_to_map
    [(0, "Clear sky");
     (1, "Mainly clear");
     (2, "Partly cloudy");
     (3, "Overcast");
     (45, "Fog");
     (48, "Depositing rime fog");
     (51, "Light drizzle");
     (53, "Moderate drizzle");
     (55, "Dense drizzle");
     (61, "Slight rain");
     (63, "Moderate rain");
     (65, "Heavy rain");
     (66, "Light freezing rain");
     (67, "Heavy freezing rain");
     (71, "Slight snow fall");
     (73, "Moderate snow fall");
     (75, "Heavy snow fall");
     (77, "Snow grains");
     (80, "Slight rain showers");
     (81, "Moderate rain showers");
     (82, "Violent rain showers");
     (85, "Slight snow showers");
     (86, "Heavy snow showers");
     (95, "Thunderstorm");
     (96, "Thunderstorm with slight hail");
     (99, "Thunderstorm with heavy hail")].

(** The integer a dict with integer keys finds for the key [v]: a number
    equal to that integer ([1.0] and [True] find the entry of [1]). *)
Definition json_int_key (v : json) : option Z :=
  match v with
  | JBool b => Some (Z.b2z b)
  | JInt n => Some n
  | JFloat (FFinite q) =>
      if Qnum q mod Zpos (Qden q) =? 0 then Some (Qnum q / Zpos (Qden q))
      else None
  | _ => None
  end.

(** [self.WEATHER_CODES.get(code, dflt)]; a list or a dict as key is
    unhashable. *)
Definition WEATHER_CODES_get (code : json) (dflt : string) : py string :=
  match code with
  | JList _ | JObj _ => Raised TypeError
  | _ => Done (match json_int_key code with
               | Some n => default dflt (WEATHER_CODES !! n)
               | None => dflt
               end)
  end.

(** [_get_weather_icon(code)] *)
Definition _get_weather_icon (code : json) : string :=
  if py_eq_int code 0 then "☀️"
  else if py_in_ints code [1; 2] then "🌤️"
  else if py_eq_int code 3 then "☁️"
  else if py_in_ints code [45; 48] then "🌫️"
  else if py_in_ints code [51; 53; 55; 61; 63; 65; 80; 81; 82] then "🌧️"
  else if py_in_ints code [66; 67] then "🌨️"
  else if py_in_ints code [71; 73; 75; 77; 85; 86] then "❄️"
  else if py_in_ints code [95; 96; 99] then "⛈️"
  else "🌡️".

(** ** Extreme events (weather_client.py) *)

(** One entry of [alerts]. *)
Definition alert (date : json) (type severity message : string) : json :=
  JObj [("date", date); ("type", JStr type);
        ("severity", JStr severity); ("message", JStr message)].

(** The body of the loop of [get_extreme_events] for one [day]; [py_str]
    is how an f-string prints a value. *)
Definition day_alerts (py_str : json -> string) (day : json) : py (list json) :=
  precipitation ← py_get day "precipitation" (JObj []);
  precip ← py_get precipitation "amount" (JInt 0);
  temperature ← py_get day "temperature" (JObj []);
  temp_max ← py_get temperature "max" (JInt 0);
  conditions ← py_get day "conditions" (JObj []);
  weather_code ← py_get conditions "code" (JInt 0);
  heavy ←
    (if truthy precip then
       over ← py_gt_int precip 20;
       if over : bool then
         date ← py_item day "date";
         high ← py_gt_int precip 50;
         mret [alert date "HEAVY_PRECIPITATION"
                 (if high : bool then "HIGH" else "MODERATE")
                 ("Heavy precipitation expected: " +:+ py_str precip +:+ "mm")]
       else mret []
     else mret []);
  heat ←
    (if truthy temp_max then
       over ← py_gt_int temp_max 40;
       if over : bool then
         date ← py_item day "date";
         mret [alert date "EXTREME_HEAT" "HIGH"
                 ("Extreme heat warning: " +:+ py_str temp_max +:+ "°C")]
       else mret []
     else mret []);
  storm ←
    (if py_in_ints weather_code [95; 96; 99] then
       date ← py_item day "date";
       message ← WEATHER_CODES_get weather_code "Thunderstorm expected";
       mret [alert date "THUNDERSTORM"
               (if py_eq_int weather_code 99 then "HIGH" else "MODERATE")
               message]
     else mret []);
  mret (heavy ++ heat ++ storm).

(** The loop: the alerts of the days, in order; an exception in any day
    ends the call. *)
Fixpoint scan_days (py_str : json -> string) (days : list json) : py (list json) :=
  match days with
  | [] => mret []
  | day :: days' =>
      here ← day_alerts py_str day;
      later ← scan_days py_str days';
      mret (here ++ later)
  end.

(** [get_extreme_events]: [forecast] is what
    [self.get_forecast(latitude, longitude, days=7)] returned. *)
Definition get_extreme_events (py_str : json -> string)
    (forecast : gmap string json) : py (gmap string json) :=
  if negb (truthy (default JNull (forecast !! "success"))) then mret forecast
  else
    days ← py_iter (default (JList []) (forecast !! "forecast"));
    alerts ← scan_days py_str days;
    mret {[ "success" := JBool true;
            "location" := default JNull (forecast !! "location");
            "alerts" := JList alerts;
            "alert_count" := JInt (Z.of_nat (length alerts));
            "checked_days" := JInt 7 ]}.

(** The [day_data] literal that [get_forecast] appends for each date, as a
    function of the values it puts in. *)
Record day_fields : Type := mkDayFields {
  f_date : json;
  f_temp_max : json;
  f_temp_min : json;
  f_amount : json;
  f_probability : json;
  f_code : json;
  f_description : json;
  f_icon : json;
  f_wind_speed : json;
  f_uv_index : json
}.

Definition day_data (f : day_fields) : json :=
  JObj [("date", f_date f);
        ("temperature",
         JObj [("max", f_temp_max f); ("min", f_temp_min f); ("unit", JStr "°C")]);
        ("precipitation",
         JObj [("amount", f_amount f); ("probability", f_probability f);
               ("unit", JStr "mm")]);
        ("conditions",
         JObj [("code", f_code f); ("description", f_description f);
               ("icon", f_icon f)]);
        ("wind", JObj [("speed", f_wind_speed f); ("unit", JStr "km/h")]);
        ("uv_index", f_uv_index f)].

(** A number, or a value that is falsy: what [x and x > n] can evaluate. *)
Definition numeric_or_falsy (v : json) : Prop :=
  match v with
  | JStr s => s = ""
  | JList l => l = []
  | JObj o => o = []
  | _ => True
  end.

(** The ["message"] of an alert. *)
Definition alert_message (a : json) : option json :=
  match a with
  | JObj o => assoc "message" o
  | _ => None
  end.

(** ** The forecast endpoint (main.py) *)

(** What an endpoint answers: a body, or the [HTTPException] it raised. *)
Inductive reply : Type :=
  | Body (b : gmap string json)
  | HTTPError (status : Z) (detail : json).

Definition json_of_value (v : value) : json :=
  match v with
  | VStr s => JStr s
  | VInt n => JInt n
  | VNone => JNull
  end.

(** The body of the endpoint [get_forecast]; [client] is
    [get_client().get_forecast], [key_info] what the dependency
    [verify_api_key] returned. *)
Definition get_forecast (client : pyfloat -> pyfloat -> Z -> gmap string json)
    (latitude longitude : pyfloat) (days : Z) (key_info : option dict) : reply :=
  if negb (int_le_float (-90) latitude && float_le_int latitude 90) then
    HTTPError 400 (JStr "Latitude must be between -90 and 90")
  else if negb (int_le_float (-180) longitude && float_le_int longitude 180) then
    HTTPError 400 (JStr "Longitude must be between -180 and 180")
  else
    let result := client latitude longitude days in
    if negb (truthy (default JNull (result !! "success"))) then
      HTTPError 500 (default (JStr "Unknown error") (result !! "error"))
    else if truthy_info key_info then
      Body (<[ "tier" := json_of_value
                 (default (VStr "free") (default ∅ key_info !! "tier")) ]>
              (<[ "authenticated" := JBool true ]> result))
    else
      Body (<[ "tier" := JStr "public" ]>
              (<[ "authenticated" := JBool false ]> result)).

(** Finite coordinates within the ranges the endpoint names. *)
Definition valid_coordinates (latitude longitude : pyfloat) : Prop :=
  exists p q, latitude = FFinite p /\ longitude = FFinite q
              /\ (-90 <= p <= 90)%Q /\ (-180 <= q <= 180)%Q.

(** Steps through the binds of a [py] computation. *)
Ltac py_step :=
  cbn [mbind py_bind mret py_ret py_item assoc String.eqb Ascii.eqb Bool.eqb].

Ltac py_step_in H :=
  cbn [mbind py_bind mret py_ret] in H.

Ltac py_done H := cbn [mret py_ret] in H; injection H as <-.

(** Splits a lookup in a dict literal into one case per entry. *)
Ltac dict_entries H :=
  repeat match type of H with
         | <[ _ := _ ]> _ !! _ = Some _ =>
             apply lookup_insert_Some in H as [[_ H]|[_ H]]
         | {[ _ := _ ]} !! _ = Some _ =>
             apply lookup_singleton_Some in H as [_ H]
         end.

(** ** Basic facts about the limiter *)

Lemma later_than_spec (m t : timestamp) : later_than m t = true <-> (m < t)%Q.
Proof.
  unfold later_than. rewrite negb_true_iff, <- not_true_iff_false, Qle_bool_iff.
  split; intros H; lra.
Qed.

Lemma later_than_false (m t : timestamp) : later_than m t = false <-> (t <= m)%Q.
Proof.
  unfold later_than. rewrite negb_false_iff, Qle_bool_iff. tauto.
Qed.

Lemma window_set_window_eq st k w : window (set_window st k w) k = w.
Proof. unfold window, set_window; simpl. by rewrite lookup_insert_eq. Qed.

Lemma window_set_window_ne st k k' w :
  k ≠ k' -> window (set_window st k w) k' = window st k'.
Proof. intros Hne. unfold window, set_window; simpl. by rewrite lookup_insert_ne. Qed.

Lemma set_window_twice st k w1 w2 :
  set_window (set_window st k w1) k w2 = set_window st k w2.
Proof. unfold set_window; simpl. by rewrite insert_insert_eq. Qed.

(** The function as one case distinction on the cleaned list. *)
Lemma check_rate_limit_unfold st k L now :
  check_rate_limit st k L now =
    let kept := clean (now - 60)%Q (window st k) in
    if Z.of_nat (length kept) >=? L then (false, set_window st k kept)
    else (true, set_window st k (kept ++ [now])).
Proof.
  unfold check_rate_limit. cbv zeta.
  assert (Hw : window (match REQUEST_COUNTS st !! k with
                       | None => set_window st k []
                       | Some _ => st end) k = window st k).
  { destruct (REQUEST_COUNTS st !! k) eqn:E; [done|].
    rewrite window_set_window_eq. unfold window. by rewrite E. }
  rewrite Hw.
  assert (Hs : forall w, set_window (match REQUEST_COUNTS st !! k with
                       | None => set_window st k []
                       | Some _ => st end) k w = set_window st k w).
  { intros w. destruct (REQUEST_COUNTS st !! k); [done|]. apply set_window_twice. }
  rewrite Hs, window_set_window_eq, set_window_twice. done.
Qed.

(** ** Non-decreasing lists of clock readings *)

Lemma nondecreasing_from_weaken t0 t1 ts :
  (t0 <= t1)%Q -> nondecreasing_from t1 ts -> nondecreasing_from t0 ts.
Proof.
  destruct ts as [|t ts]; simpl; [done|].
  intros Hle [H1 H2]. split; [lra|done].
Qed.

Lemma nondecreasing_from_nondecreasing t0 ts :
  nondecreasing_from t0 ts -> nondecreasing ts.
Proof. destruct ts as [|t ts]; simpl; [done|]. by intros [_ H]. Qed.

Lemma nondecreasing_has_start ts :
  nondecreasing ts -> exists t0, nondecreasing_from t0 ts.
Proof.
  destruct ts as [|t ts]; simpl; intros H.
  - by exists 0%Q.
  - exists t. split; [lra|done].
Qed.

Lemma nondecreasing_from_filter f t0 ts :
  nondecreasing_from t0 ts -> nondecreasing_from t0 (List.filter f ts).
Proof.
  revert t0. induction ts as [|t ts IH]; simpl; intros t0; [done|].
  intros [H1 H2]. destruct (f t); simpl.
  - split; [done|]. by apply IH.
  - apply IH. by apply nondecreasing_from_weaken with t.
Qed.

Lemma nondecreasing_filter f ts :
  nondecreasing ts -> nondecreasing (List.filter f ts).
Proof.
  intros H. destruct (nondecreasing_has_start ts H) as [t0 H0].
  eapply nondecreasing_from_nondecreasing, nondecreasing_from_filter, H0.
Qed.

Lemma nondecreasing_from_snoc t0 ts t :
  nondecreasing_from t0 (ts ++ [t]) <->
  nondecreasing_from t0 ts /\ (t0 <= t)%Q /\ Forall (fun x => (x <= t)%Q) ts.
Proof.
  revert t0. induction ts as [|x ts IH]; simpl; intros t0.
  - split.
    + intros [H _]. by repeat split.
    + intros (_ & H & _). by split.
  - rewrite IH, Forall_cons. split.
    + intros (H1 & H2 & H3 & H4). repeat split; try done; lra.
    + intros ((H1 & H2) & H3 & H4 & H5). by repeat split.
Qed.

Lemma nondecreasing_snoc ts t :
  nondecreasing (ts ++ [t]) <->
  nondecreasing ts /\ Forall (fun x => (x <= t)%Q) ts.
Proof.
  destruct ts as [|x ts]; simpl.
  - split; [by split|done].
  - rewrite nondecreasing_from_snoc, Forall_cons. tauto.
Qed.

(** ** Cleaning *)

Lemma clean_In m w x : In x (clean m w) <-> In x w /\ (m < x)%Q.
Proof. unfold clean. rewrite filter_In, later_than_spec. tauto. Qed.

Lemma clean_app m w1 w2 : clean m (w1 ++ w2) = clean m w1 ++ clean m w2.
Proof. unfold clean. apply List.filter_app. Qed.

Lemma clean_length m w : (length (clean m w) <= length w)%nat.
Proof. unfold clean. apply List.filter_length_le. Qed.

(** Cleaning at a later cutoff absorbs cleaning at an earlier one. *)
Lemma clean_clean m1 m2 w : (m1 <= m2)%Q -> clean m2 (clean m1 w) = clean m2 w.
Proof.
  intros Hle. unfold clean. induction w as [|x w IH]; simpl; [done|].
  destruct (later_than m1 x) eqn:E1; simpl.
  - destruct (later_than m2 x); by rewrite IH.
  - rewrite IH. destruct (later_than m2 x) eqn:E2; [|done].
    apply later_than_spec in E2. apply later_than_false in E1. lra.
Qed.

Lemma clean_fresh m w : Forall (fun x => (m < x)%Q) (clean m w).
Proof. apply List.Forall_forall. intros x Hx. by apply clean_In in Hx as [_ ?]. Qed.

(** ** One call of the limiter *)

(** C1.  [check_rate_limit(k, L)] at clock reading [t] first drops from the
    list of [k] every timestamp older than the cutoff [t - 60] (what is kept
    are, in order, the timestamps later than the cutoff); when the kept list
    has [L] or more entries it returns [False] and stores the kept list, so
    [t] is not recorded; otherwise it stores the kept list with [t] appended
    and returns [True].  The lists of the other keys and the key store are
    not touched. *)
Theorem check_rate_limit_admit (st : state) (k : string) (L : Z) (t : Q) :
  let kept := clean (t - 60)%Q (window st k) in
  let r := check_rate_limit st k L t in
  (forall x, In x (window st k) -> (x < t - 60)%Q -> ~ In x (window (snd r) k))
  /\ (forall x, In x kept <-> In x (window st k) /\ (t - 60 < x)%Q)
  /\ (L <= Z.of_nat (length kept) ->
        fst r = false /\ window (snd r) k = kept)
  /\ (Z.of_nat (length kept) < L ->
        fst r = true /\ window (snd r) k = kept ++ [t])
  /\ (forall k', k' <> k -> window (snd r) k' = window st k')
  /\ API_KEYS (snd r) = API_KEYS st /\ DEMO_KEYS (snd r) = DEMO_KEYS st.
Proof.
  intros kept r.
  assert (Hkept : forall x, In x kept <-> In x (window st k) /\ (t - 60 < x)%Q).
  { intros x. unfold kept, clean. rewrite filter_In, later_than_spec. tauto. }
  assert (Hr : r = if Z.of_nat (length kept) >=? L
                   then (false, set_window st k kept)
                   else (true, set_window st k (kept ++ [t]))).
  { unfold r. by rewrite check_rate_limit_unfold. }
  split; [|split; [exact Hkept|]].
  - intros x Hin Hold Hnew. rewrite Hr in Hnew.
    destruct (Z.of_nat (length kept) >=? L); simpl in Hnew;
      rewrite window_set_window_eq in Hnew.
    + apply Hkept in Hnew. lra.
    + apply in_app_or in Hnew. destruct Hnew as [Hnew|[<-|[]]].
      * apply Hkept in Hnew. lra.
      * lra.
  - rewrite Hr. repeat split.
    + destruct (Z.geb_spec (Z.of_nat (length kept)) L); [done|lia].
    + destruct (Z.geb_spec (Z.of_nat (length kept)) L); [|lia].
      simpl. apply window_set_window_eq.
    + destruct (Z.geb_spec (Z.of_nat (length kept)) L); [lia|done].
    + destruct (Z.geb_spec (Z.of_nat (length kept)) L); [lia|].
      simpl. apply window_set_window_eq.
    + intros k' Hne.
      destruct (Z.of_nat (length kept) >=? L); simpl;
        by rewrite window_set_window_ne.
    + by destruct (Z.of_nat (length kept) >=? L).
    + by destruct (Z.of_nat (length kept) >=? L).
Qed.

(** ** Histories and the limiter's windows *)

Lemma run_ops_snoc st ops o : run_ops st (ops ++ [o]) = step (run_ops st ops) o.
Proof. unfold run_ops. by rewrite fold_left_app. Qed.

Lemma clock_readings_snoc ops o :
  clock_readings (ops ++ [o]) =
  clock_readings ops ++ match o with Check _ _ now => [now] | _ => [] end.
Proof. unfold clock_readings. rewrite flat_map_app. simpl. by rewrite app_nil_r. Qed.

(** The list of [k] after one more call of the history. *)
Lemma window_step st o k :
  window (step st o) k =
  match o with
  | Check k' L now =>
      if bool_decide (k' = k) then
        let kept := clean (now - 60)%Q (window st k) in
        if Z.of_nat (length kept) >=? L then kept else kept ++ [now]
      else window st k
  | Issue _ _ _ _ => window st k
  end.
Proof.
  destruct o as [name tier token created|k' L now]; simpl; [done|].
  rewrite check_rate_limit_unfold. cbv zeta.
  case_bool_decide as Hk.
  - subst k'. destruct (Z.of_nat _ >=? L); simpl; apply window_set_window_eq.
  - destruct (Z.of_nat _ >=? L); simpl; by apply window_set_window_ne.
Qed.

(** Every stored timestamp is a clock reading of the history. *)
Lemma window_readings cf cp ops k x :
  In x (window (run_ops (initial_state cf cp) ops) k) -> In x (clock_readings ops).
Proof.
  revert x. induction ops as [|o ops IH] using rev_ind; intros x.
  - unfold window; simpl. by rewrite lookup_empty.
  - rewrite run_ops_snoc, window_step, clock_readings_snoc, in_app_iff.
    destruct o as [name tier token created|k' L now]; [by auto|].
    case_bool_decide; [|by auto]. cbv zeta.
    destruct (Z.of_nat _ >=? L).
    + intros Hx%clean_In. left. apply IH, Hx.
    + rewrite in_app_iff. intros [Hx%clean_In|Hx]; [|by right].
      left. apply IH, Hx.
Qed.

(** Under a clock that never runs backwards every list is in order. *)
Lemma window_nondecreasing cf cp ops k :
  nondecreasing (clock_readings ops) ->
  nondecreasing (window (run_ops (initial_state cf cp) ops) k).
Proof.
  induction ops as [|o ops IH] using rev_ind.
  - intros _. unfold window; simpl. by rewrite lookup_empty.
  - rewrite run_ops_snoc, window_step, clock_readings_snoc.
    destruct o as [name tier token created|k' L now].
    + rewrite app_nil_r. exact IH.
    + intros [Hmono Hle]%nondecreasing_snoc.
      case_bool_decide; [|by apply IH]. cbv zeta.
      destruct (Z.of_nat _ >=? L).
      * by apply nondecreasing_filter, IH.
      * apply nondecreasing_snoc. split.
        -- by apply nondecreasing_filter, IH.
        -- apply List.Forall_forall. intros x [Hx _]%clean_In.
           apply window_readings in Hx.
           by apply (proj1 (List.Forall_forall _ _) Hle).
Qed.

(** With one limit for a key its list never grows past that limit. *)
Lemma window_bounded cf cp ops k L :
  fixed_limit k L ops ->
  Z.of_nat (length (window (run_ops (initial_state cf cp) ops) k)) <= Z.max 0 L.
Proof.
  induction ops as [|o ops IH] using rev_ind.
  - intros _. unfold window; simpl. rewrite lookup_empty. simpl. lia.
  - unfold fixed_limit. rewrite Forall_app, Forall_singleton.
    intros [Hfix Ho]. specialize (IH Hfix).
    rewrite run_ops_snoc, window_step.
    destruct o as [name tier token created|k' L' now]; [done|].
    case_bool_decide as Hk; [|done]. rewrite (Ho Hk). cbv zeta.
    pose proof (clean_length (now - 60)%Q
                  (window (run_ops (initial_state cf cp) ops) k)) as Hlen.
    destruct (Z.geb_spec
      (Z.of_nat (length (clean (now - 60)%Q
         (window (run_ops (initial_state cf cp) ops) k)))) L).
    + lia.
    + rewrite length_app. simpl. lia.
Qed.

(** C2.  After any history from process start, a call
    [check_rate_limit(k, L)] at clock reading [t] leaves for [k] a list in
    which every timestamp [x] is fresh ([t - x < 60]); the list is
    non-decreasing when the clock readings of the history and [t] are; when
    the call returns [True] the list has at most [L] entries, and when it
    returns [False] the list is the cleaned one, without [t]; and when every
    earlier call on [k] passed the same [L], the list never has more than
    [L] entries whatever the call returns ([L] not negative). *)
Theorem window_invariants (cf cp : string) (ops : list op)
    (k : string) (L : Z) (t : Q) :
  let st := run_ops (initial_state cf cp) ops in
  let r := check_rate_limit st k L t in
  Forall (fun x => (t - x < 60)%Q) (window (snd r) k)
  /\ (nondecreasing (clock_readings ops ++ [t]) ->
        nondecreasing (window (snd r) k))
  /\ (fst r = true -> Z.of_nat (length (window (snd r) k)) <= L)
  /\ (fst r = false ->
        L <= Z.of_nat (length (clean (t - 60)%Q (window st k)))
        /\ window (snd r) k = clean (t - 60)%Q (window st k))
  /\ (fixed_limit k L ops -> 0 <= L ->
        Z.of_nat (length (window (snd r) k)) <= L).
Proof.
  intros st r.
  assert (Hsnd : snd r = run_ops (initial_state cf cp) (ops ++ [Check k L t])).
  { by rewrite run_ops_snoc. }
  rewrite Hsnd.
  assert (Hfst : fst r = negb (Z.of_nat (length (clean (t - 60)%Q (window st k))) >=? L)).
  { unfold r. rewrite check_rate_limit_unfold. cbv zeta.
    by destruct (Z.of_nat _ >=? L). }
  assert (Hw : window (run_ops (initial_state cf cp) (ops ++ [Check k L t])) k =
               if fst r then clean (t - 60)%Q (window st k) ++ [t]
               else clean (t - 60)%Q (window st k)).
  { rewrite run_ops_snoc, window_step, bool_decide_true by done. cbv zeta.
    rewrite Hfst. fold st. by destruct (Z.of_nat _ >=? L). }
  split; [|split; [|split; [|split]]].
  - rewrite Hw. assert (Hk := clean_fresh (t - 60)%Q (window st k)).
    assert (Hk' : Forall (fun x => (t - x < 60)%Q) (clean (t - 60)%Q (window st k))).
    { eapply Forall_impl; [exact Hk|]. simpl. intros x Hx. lra. }
    destruct (fst r); [|done]. apply Forall_app. split; [done|].
    apply Forall_singleton. lra.
  - intros Hmono. apply window_nondecreasing.
    by rewrite clock_readings_snoc.
  - intros Htrue. rewrite Hw, Htrue, length_app. simpl.
    rewrite Htrue in Hfst. symmetry in Hfst. apply negb_true_iff in Hfst.
    destruct (Z.geb_spec (Z.of_nat (length (clean (t - 60)%Q (window st k)))) L);
      [done|lia].
  - intros Hfalse. rewrite Hw, Hfalse. split; [|done].
    rewrite Hfalse in Hfst. symmetry in Hfst. apply negb_false_iff in Hfst.
    destruct (Z.geb_spec (Z.of_nat (length (clean (t - 60)%Q (window st k)))) L);
      [lia|done].
  - intros Hfix HL.
    assert (Hfix' : fixed_limit k L (ops ++ [Check k L t])).
    { unfold fixed_limit in *. apply Forall_app. split; [done|].
      by apply Forall_singleton. }
    pose proof (window_bounded cf cp _ k L Hfix'). lia.
Qed.

(** ** The sliding window *)

Section SlidingWindow.

Variable k : string.
Variable L : Z.

Lemma in_span_spec a t : in_span a t = true <-> (a <= t)%Q /\ (t < a + 60)%Q.
Proof.
  unfold in_span. by rewrite andb_true_iff, Qle_bool_iff, later_than_spec.
Qed.

Lemma in_span_count_snoc a admitted t :
  in_span_count a (admitted ++ [t]) =
  in_span_count a admitted + (if in_span a t then 1 else 0).
Proof.
  unfold in_span_count. rewrite List.filter_app, length_app. simpl.
  destruct (in_span a t); simpl; lia.
Qed.

(** Whatever lies in a span with [t] is still fresh at [t]. *)
Lemma in_span_count_clean a t admitted :
  in_span a t = true ->
  in_span_count a admitted <= Z.of_nat (length (clean (t - 60)%Q admitted)).
Proof.
  intros [Ha1 Ha2]%in_span_spec. unfold in_span_count, clean.
  induction admitted as [|x l IH]; simpl; [lia|].
  destruct (in_span a x) eqn:Ex.
  - apply in_span_spec in Ex as [Hx1 Hx2].
    assert (Hl : later_than (t - 60)%Q x = true) by (apply later_than_spec; lra).
    rewrite Hl. simpl. lia.
  - destruct (later_than (t - 60)%Q x); simpl; lia.
Qed.

(** The history runs from [st] at a clock that has reached [t0];
    [admitted] are the instants at which [k] was admitted before.  The
    stored list and [admitted] agree on what is fresh at [t0], which is all
    that later calls look at. *)
Lemma admissions_span_from (ops : list op) :
  forall (st : state) (admitted : list Q) (t0 : Q),
    fixed_limit k L ops ->
    nondecreasing_from t0 (clock_readings ops) ->
    clean (t0 - 60)%Q admitted = clean (t0 - 60)%Q (window st k) ->
    (forall a, in_span_count a admitted <= Z.max 0 L) ->
    forall a, in_span_count a (admitted ++ admissions k st ops) <= Z.max 0 L.
Proof.
  induction ops as [|o ops' IH]; intros st admitted t0 Hfix Hclock Hagree Hbound a.
  - simpl. rewrite app_nil_r. apply Hbound.
  - apply Forall_cons in Hfix as [Ho Hfix].
    destruct o as [name tier token created|k' L' now].
    + simpl. by apply (IH _ _ t0).
    + simpl in Hclock. destruct Hclock as [Hle Hclock].
      assert (Hnow : clean (now - 60)%Q admitted =
                     clean (now - 60)%Q (window st k)).
      { rewrite <- (clean_clean (t0 - 60)%Q (now - 60)%Q admitted) by lra.
        rewrite <- (clean_clean (t0 - 60)%Q (now - 60)%Q (window st k)) by lra.
        by rewrite Hagree. }
      cbn [admissions].
      pose proof (window_step st (Check k' L' now) k) as Hstep.
      cbv zeta in Hstep.
      case_bool_decide as Hk.
      * subst k'. rewrite (Ho eq_refl) in *. clear Ho.
        rewrite check_rate_limit_unfold. cbv zeta.
        rewrite bool_decide_true in Hstep by done.
        rewrite <- Hnow in *.
        assert (Hidem : clean (now - 60)%Q (clean (now - 60)%Q admitted) =
                        clean (now - 60)%Q admitted).
        { apply clean_clean. lra. }
        destruct (Z.geb_spec (Z.of_nat (length (clean (now - 60)%Q admitted))) L)
          as [Hfull|Hroom]; cbn [andb fst].
        -- apply (IH _ _ now); try done.
           by rewrite Hstep, Hidem.
        -- rewrite cons_middle, app_assoc.
           apply (IH _ _ now); try done.
           ++ by rewrite Hstep, !clean_app, Hidem.
           ++ intros a'. rewrite in_span_count_snoc.
              destruct (in_span a' now) eqn:Ein.
              ** pose proof (in_span_count_clean a' now admitted Ein). lia.
              ** specialize (Hbound a'). lia.
      * cbn [andb]. apply (IH _ _ now); try done.
        rewrite window_step, bool_decide_false by done. exact Hnow.
Qed.

End SlidingWindow.

(** C3.  Whatever the calls and however they are timed, as long as the
    clock does not run backwards and [k] is always checked against the
    limit [L]: in the span of 60 seconds that starts at any instant [a]
    ([a <= t < a + 60]) at most [L] calls of [check_rate_limit] on [k]
    return [True] (none at all for a limit that is not positive). *)
Theorem sliding_window_no_burst (cf cp : string) (ops : list op)
    (k : string) (L : Z) (a : Q) :
  nondecreasing (clock_readings ops) ->
  fixed_limit k L ops ->
  in_span_count a (admissions k (initial_state cf cp) ops) <= Z.max 0 L.
Proof.
  intros Hclock Hfix.
  destruct (nondecreasing_has_start _ Hclock) as [t0 Hfrom].
  apply (admissions_span_from k L ops (initial_state cf cp) [] t0); try done.
  intros a'. unfold in_span_count. simpl. lia.
Qed.

Lemma sliding_window_no_burst_witness :
  nondecreasing (clock_readings
    [Check "k" 2 0; Check "k" 2 (1 # 2); Check "k" 2 1; Check "k" 2 (121 # 2)])
  /\ fixed_limit "k" 2
    [Check "k" 2 0; Check "k" 2 (1 # 2); Check "k" 2 1; Check "k" 2 (121 # 2)]
  /\ in_span_count (1 # 2)
       (admissions "k" (initial_state "" "")
          [Check "k" 2 0; Check "k" 2 (1 # 2); Check "k" 2 1; Check "k" 2 (121 # 2)])
     <= Z.max 0 2.
Proof.
  assert (H1 : nondecreasing (clock_readings
    [Check "k" 2 0; Check "k" 2 (1 # 2); Check "k" 2 1; Check "k" 2 (121 # 2)])).
  { simpl. repeat split; unfold Qle; simpl; lia. }
  assert (H2 : fixed_limit "k" 2
    [Check "k" 2 0; Check "k" 2 (1 # 2); Check "k" 2 1; Check "k" 2 (121 # 2)]).
  { repeat constructor. }
  exact (conj H1 (conj H2 (sliding_window_no_burst "" "" _ "k" 2 (1 # 2) H1 H2))).
Defined.

Example sliding_window_run :
  admissions "k" (initial_state "" "")
    [Check "k" 2 0; Check "k" 2 (1 # 2); Check "k" 2 1; Check "k" 2 (121 # 2)]
  = [0%Q; (1 # 2)%Q; (121 # 2)%Q].
Proof. vm_compute. reflexivity. Qed.

(** Two calls exactly 60 seconds apart are both admitted under limit 1: the
    first timestamp is no longer later than the cutoff of the second call. *)
Example sixty_seconds_apart :
  admissions "k" (initial_state "" "") [Check "k" 1 0; Check "k" 1 60]
  = [0%Q; 60%Q].
Proof. vm_compute. reflexivity. Qed.

(** ** The key store along a history *)

Lemma DEMO_KEYS_step st o : DEMO_KEYS (step st o) = DEMO_KEYS st.
Proof.
  destruct o as [name tier token created|k L now]; simpl; [done|].
  rewrite check_rate_limit_unfold. cbv zeta. by destruct (Z.of_nat _ >=? L).
Qed.

Lemma DEMO_KEYS_run_ops st ops : DEMO_KEYS (run_ops st ops) = DEMO_KEYS st.
Proof.
  induction ops as [|o ops IH] using rev_ind; [done|].
  by rewrite run_ops_snoc, DEMO_KEYS_step.
Qed.

Lemma API_KEYS_step st o :
  API_KEYS (step st o) =
  match o with
  | Issue name tier token created =>
      <[ generate_api_key token := key_data name tier created ]> (API_KEYS st)
  | Check _ _ _ => API_KEYS st
  end.
Proof.
  destruct o as [name tier token created|k L now]; simpl; [done|].
  rewrite check_rate_limit_unfold. cbv zeta. by destruct (Z.of_nat _ >=? L).
Qed.

(** Every registered record was written by an [Issue] of the history. *)
Lemma API_KEYS_origin cf cp ops s d :
  API_KEYS (run_ops (initial_state cf cp) ops) !! s = Some d ->
  exists name tier token created,
    In (Issue name tier token created) ops
    /\ s = generate_api_key token /\ d = key_data name tier created.
Proof.
  induction ops as [|o ops IH] using rev_ind.
  - simpl. by rewrite lookup_empty.
  - rewrite run_ops_snoc, API_KEYS_step.
    destruct o as [name tier token created|k L now].
    + destruct (decide (generate_api_key token = s)) as [<-|Hne].
      * rewrite lookup_insert_eq. intros [= <-].
        exists name, tier, token, created. rewrite in_app_iff. simpl. auto.
      * rewrite lookup_insert_ne by done. intros H.
        destruct (IH H) as (n & t & tok & c & Hin & Hs & Hd).
        exists n, t, tok, c. rewrite in_app_iff. auto.
    + intros H. destruct (IH H) as (n & t & tok & c & Hin & Hs & Hd).
      exists n, t, tok, c. rewrite in_app_iff. auto.
Qed.

(** A generated key carries the [ngcm_] marker, so it is none of the demo
    secrets. *)
Lemma generate_api_key_not_demo token :
  generate_api_key token <> demo_free_secret /\
  generate_api_key token <> demo_pro_secret.
Proof. split; discriminate. Qed.

Lemma demo_lookup_free cf cp ops :
  DEMO_KEYS (run_ops (initial_state cf cp) ops) !! demo_free_secret
  = Some (demo_free_record cf).
Proof. rewrite DEMO_KEYS_run_ops. simpl. by simplify_map_eq. Qed.

Lemma demo_lookup_pro cf cp ops :
  DEMO_KEYS (run_ops (initial_state cf cp) ops) !! demo_pro_secret
  = Some (demo_pro_record cp).
Proof. rewrite DEMO_KEYS_run_ops. simpl. by simplify_map_eq. Qed.

Lemma demo_lookup_other cf cp ops s :
  s <> demo_free_secret -> s <> demo_pro_secret ->
  DEMO_KEYS (run_ops (initial_state cf cp) ops) !! s = None.
Proof. intros H1 H2. rewrite DEMO_KEYS_run_ops. simpl. by simplify_map_eq. Qed.

(** What [get_key_info] can return after a history: a demo record, or the
    record an [Issue] of the history stored. *)
Lemma get_key_info_origin cf cp ops s d :
  get_key_info (run_ops (initial_state cf cp) ops) s = Some d ->
  (s = demo_free_secret /\ d = demo_free_record cf)
  \/ (s = demo_pro_secret /\ d = demo_pro_record cp)
  \/ (exists name tier token created,
        In (Issue name tier token created) ops
        /\ s = generate_api_key token /\ d = key_data name tier created).
Proof.
  unfold get_key_info.
  destruct (decide (s = demo_free_secret)) as [->|Hf].
  { rewrite demo_lookup_free. intros [= <-]. by left. }
  destruct (decide (s = demo_pro_secret)) as [->|Hp].
  { rewrite demo_lookup_pro. intros [= <-]. right. by left. }
  rewrite demo_lookup_other by done.
  intros H. right. right. by apply (API_KEYS_origin cf cp).
Qed.

Lemma key_data_not_empty name tier created : key_data name tier created <> ∅.
Proof.
  intros H. assert (Hl : key_data name tier created !! "name" = None).
  { by rewrite H, lookup_empty. }
  discriminate Hl.
Qed.

Lemma demo_free_record_not_empty cf : demo_free_record cf <> ∅.
Proof.
  intros H. assert (Hl : demo_free_record cf !! "name" = None).
  { by rewrite H, lookup_empty. }
  discriminate Hl.
Qed.

Lemma demo_pro_record_not_empty cp : demo_pro_record cp <> ∅.
Proof.
  intros H. assert (Hl : demo_pro_record cp !! "name" = None).
  { by rewrite H, lookup_empty. }
  discriminate Hl.
Qed.

(** A record that [get_key_info] finds is never the empty dict, so it
    passes the [if not key_info] test. *)
Lemma truthy_info_resolved cf cp ops s d :
  get_key_info (run_ops (initial_state cf cp) ops) s = Some d ->
  truthy_info (Some d) = true.
Proof.
  intros H. simpl. apply negb_true_iff, bool_decide_eq_false.
  destruct (get_key_info_origin _ _ _ _ _ H)
    as [[_ ->]|[[_ ->]|(n & t & tok & c & _ & _ & ->)]].
  - apply demo_free_record_not_empty.
  - apply demo_pro_record_not_empty.
  - apply key_data_not_empty.
Qed.

(** Only a non-empty string resolves. *)
Lemma resolved_not_empty cf cp ops s d :
  get_key_info (run_ops (initial_state cf cp) ops) s = Some d -> s <> "".
Proof.
  intros H.
  destruct (get_key_info_origin _ _ _ _ _ H)
    as [[-> _]|[[-> _]|(n & t & tok & c & _ & -> & _)]]; done.
Qed.

Lemma truthy_key_Some s : s <> "" -> truthy_key (Some s) = true.
Proof.
  intros H. simpl. apply negb_true_iff. by apply String.eqb_neq.
Qed.

(** ** Issuance *)

Lemma rate_limit_of_cases tier :
  rate_limit_of tier =
    if String.eqb tier "free" then 10
    else if String.eqb tier "starter" then 60
    else if String.eqb tier "pro" then 300
    else if String.eqb tier "enterprise" then 1000
    else 10.
Proof.
  unfold rate_limit_of, rate_limits.
  destruct (String.eqb_spec tier "free") as [->|H1]; [done|].
  destruct (String.eqb_spec tier "starter") as [->|H2]; [done|].
  destruct (String.eqb_spec tier "pro") as [->|H3]; [done|].
  destruct (String.eqb_spec tier "enterprise") as [->|H4]; [done|].
  rewrite !lookup_insert_ne by done.
  by rewrite lookup_singleton_ne.
Qed.

Lemma key_data_rate_limit name tier created :
  key_data name tier created !! "rate_limit" = Some (VInt (rate_limit_of tier)).
Proof. done. Qed.

(** The response of [create_api_key] is the stored record with the secret
    added under ["api_key"]. *)
Lemma create_api_key_response st name tier token created :
  fst (create_api_key st name tier token created) !! "api_key"
    = Some (VStr (generate_api_key token))
  /\ delete "api_key" (fst (create_api_key st name tier token created))
    = key_data name tier created.
Proof.
  simpl. split.
  - by rewrite lookup_union_r, lookup_singleton_eq.
  - rewrite delete_union, delete_singleton_eq, delete_id by done.
    apply (right_id_L ∅ (∪)).
Qed.

(** C5, as amended.  [create_api_key] sets [rate_limit], in its response
    and in the stored record alike, to 10 for tier [free], 60 for
    [starter], 300 for [pro], 1000 for [enterprise], and to 10 for every
    other tier name; [demo-free] and [demo-pro] are such other names. *)
Theorem create_api_key_rate_limit (st : state) (name tier token created : string) :
  let r := create_api_key st name tier token created in
  let limit :=
    if String.eqb tier "free" then 10
    else if String.eqb tier "starter" then 60
    else if String.eqb tier "pro" then 300
    else if String.eqb tier "enterprise" then 1000
    else 10 in
  fst r !! "rate_limit" = Some (VInt limit)
  /\ exists d, API_KEYS (snd r) !! generate_api_key token = Some d
               /\ d !! "rate_limit" = Some (VInt limit).
Proof.
  cbv zeta. rewrite <- rate_limit_of_cases. split.
  - simpl. by rewrite lookup_union_l.
  - exists (key_data name tier created). split.
    + simpl. by rewrite lookup_insert_eq.
    + apply key_data_rate_limit.
Qed.

(** The specification's table gives tier [demo-pro] 100 requests a minute;
    a key issued for that tier name gets 10. *)
Lemma create_api_key_demo_pro_limit :
  fst (create_api_key (initial_state "" "") "x" "demo-pro" "t" "")
    !! "rate_limit" = Some (VInt 10)
  /\ spec_requests_per_minute "demo-pro" = 100
  /\ fst (create_api_key (initial_state "" "") "x" "demo-pro" "t" "")
       !! "rate_limit"
     <> Some (VInt (spec_requests_per_minute "demo-pro")).
Proof. repeat split. discriminate. Qed.

(** ** Demo keys *)

(** C6.  After any history from process start, the empty one included,
    [DEMO_KEYS] is what import made it, and [get_key_info] on the two fixed
    secrets returns the demo records, with [rate_limit] 10 for the free demo
    key and 100 for the pro demo key. *)
Theorem demo_keys_always_resolve (cf cp : string) (ops : list op) :
  let st := run_ops (initial_state cf cp) ops in
  DEMO_KEYS st = DEMO_KEYS (initial_state cf cp)
  /\ get_key_info st demo_free_secret = Some (demo_free_record cf)
  /\ demo_free_record cf !! "rate_limit" = Some (VInt 10)
  /\ get_key_info st demo_pro_secret = Some (demo_pro_record cp)
  /\ demo_pro_record cp !! "rate_limit" = Some (VInt 100).
Proof.
  cbv zeta. split; [apply DEMO_KEYS_run_ops|].
  unfold get_key_info. rewrite demo_lookup_free, demo_lookup_pro.
  by repeat split.
Qed.

(** ** The dependencies *)

Lemma generate_api_key_inj t1 t2 :
  generate_api_key t1 = generate_api_key t2 -> t1 = t2.
Proof. unfold generate_api_key. simpl. intros H. by injection H. Qed.

(** Later calls that draw other tokens leave an issued record alone. *)
Lemma API_KEYS_token_unused st ops token :
  token_unused token ops ->
  API_KEYS (run_ops st ops) !! generate_api_key token
  = API_KEYS st !! generate_api_key token.
Proof.
  induction ops as [|o ops IH] using rev_ind; [done|].
  unfold token_unused. rewrite Forall_app, Forall_singleton.
  intros [Hops Ho]. rewrite run_ops_snoc, API_KEYS_step.
  destruct o as [name tier token' created|k L now]; [|by apply IH].
  rewrite lookup_insert_ne; [by apply IH|].
  intros Heq. by apply Ho, generate_api_key_inj.
Qed.

Lemma run_ops_app st ops1 ops2 :
  run_ops st (ops1 ++ ops2) = run_ops (run_ops st ops1) ops2.
Proof. unfold run_ops. apply fold_left_app. Qed.

(** A resolved key passes both dependencies. *)
Lemma require_api_key_resolved cf cp ops s d :
  get_key_info (run_ops (initial_state cf cp) ops) s = Some d ->
  require_api_key (run_ops (initial_state cf cp) ops) (Some s) = Return d.
Proof.
  intros H. unfold require_api_key.
  rewrite (truthy_key_Some s) by (by eapply resolved_not_empty).
  cbv zeta. change (default "" (Some s)) with s.
  by rewrite H, (truthy_info_resolved _ _ _ _ _ H).
Qed.

Lemma verify_api_key_resolved cf cp ops s d :
  get_key_info (run_ops (initial_state cf cp) ops) s = Some d ->
  verify_api_key (run_ops (initial_state cf cp) ops) (Some s) = Return (Some d).
Proof.
  intros H. unfold verify_api_key.
  rewrite (truthy_key_Some s) by (by eapply resolved_not_empty).
  cbv zeta. change (default "" (Some s)) with s.
  by rewrite H, (truthy_info_resolved _ _ _ _ _ H).
Qed.

(** C7.  [require_api_key] raises the key-required error when no key is
    presented, and the invalid-key error when the presented (non-empty)
    string resolves to no stored key.  For the secret a [create_api_key]
    call returned, after any history before the call and any history after
    it that draws other tokens, it returns the metadata exactly as issued:
    the response of the call without its ["api_key"] entry. *)
Theorem require_api_key_contract (cf cp : string) (ops1 ops2 : list op)
    (name tier token created : string) :
  token_unused token ops2 ->
  let st1 := run_ops (initial_state cf cp) ops1 in
  let issued := fst (create_api_key st1 name tier token created) in
  let st2 := run_ops (snd (create_api_key st1 name tier token created)) ops2 in
  (forall st, require_api_key st None = Raise missing_key)
  /\ (forall st s, s <> "" -> get_key_info st s = None ->
        require_api_key st (Some s) = Raise invalid_key_required)
  /\ issued !! "api_key" = Some (VStr (generate_api_key token))
  /\ require_api_key st2 (Some (generate_api_key token))
     = Return (delete "api_key" issued).
Proof.
  intros Hfresh st1 issued st2.
  split; [done|]. split.
  { intros st s Hs Hnone. unfold require_api_key.
    rewrite (truthy_key_Some s Hs). cbv zeta. change (default "" (Some s)) with s.
    by rewrite Hnone. }
  destruct (create_api_key_response st1 name tier token created) as [Hkey Hdel].
  split; [exact Hkey|].
  unfold issued. rewrite Hdel.
  assert (Hst2 : st2 = run_ops (initial_state cf cp)
                         ((ops1 ++ [Issue name tier token created]) ++ ops2)).
  { unfold st2, st1. by rewrite run_ops_app, run_ops_snoc. }
  rewrite Hst2. apply require_api_key_resolved.
  unfold get_key_info.
  destruct (generate_api_key_not_demo token) as [Hf Hp].
  rewrite demo_lookup_other by done.
  rewrite run_ops_app, API_KEYS_token_unused by done.
  rewrite run_ops_snoc, API_KEYS_step. apply lookup_insert_eq.
Qed.

Lemma require_api_key_contract_witness :
  token_unused "t1" [Check "ngcm_t1" 10 0; Issue "bob" "pro" "t2" "2026-01-02"]
  /\ require_api_key
       (run_ops
          (snd (create_api_key (run_ops (initial_state "a" "b")
                                  [Issue "eve" "free" "t0" "2026-01-01"])
                  "alice" "starter" "t1" "2026-01-01"))
          [Check "ngcm_t1" 10 0; Issue "bob" "pro" "t2" "2026-01-02"])
       (Some (generate_api_key "t1"))
     = Return (delete "api_key"
         (fst (create_api_key (run_ops (initial_state "a" "b")
                                 [Issue "eve" "free" "t0" "2026-01-01"])
                 "alice" "starter" "t1" "2026-01-01"))).
Proof.
  assert (H : token_unused "t1"
                [Check "ngcm_t1" 10 0; Issue "bob" "pro" "t2" "2026-01-02"]).
  { repeat constructor. discriminate. }
  split; [exact H|].
  exact (proj2 (proj2 (proj2
    (require_api_key_contract "a" "b" [Issue "eve" "free" "t0" "2026-01-01"]
       [Check "ngcm_t1" 10 0; Issue "bob" "pro" "t2" "2026-01-02"]
       "alice" "starter" "t1" "2026-01-01" H)))).
Defined.

(** C8.  [verify_api_key] returns [None] (the anonymous result) and raises
    nothing when no key is presented; for a presented (non-empty) string
    that resolves to no stored key it raises the invalid-key error; and for
    a string that [get_key_info] resolves, after any history from process
    start, it returns the record [get_key_info] found. *)
Theorem verify_api_key_contract :
  (forall st, verify_api_key st None = Return None)
  /\ (forall st s, s <> "" -> get_key_info st s = None ->
        verify_api_key st (Some s) = Raise invalid_key_optional)
  /\ (forall cf cp ops s d,
        get_key_info (run_ops (initial_state cf cp) ops) s = Some d ->
        verify_api_key (run_ops (initial_state cf cp) ops) (Some s)
        = Return (Some d)).
Proof.
  split; [done|]. split.
  - intros st s Hs Hnone. unfold verify_api_key.
    rewrite (truthy_key_Some s Hs). cbv zeta. change (default "" (Some s)) with s.
    by rewrite Hnone.
  - apply verify_api_key_resolved.
Qed.

(** C10.  The empty string as header value counts as no key: for [""]
    [verify_api_key] returns [None], and [require_api_key] raises the
    key-required error, which is not the invalid-key one. *)
Theorem empty_key_is_absent (st : state) :
  verify_api_key st (Some "") = Return None
  /\ require_api_key st (Some "") = Raise missing_key
  /\ missing_key <> invalid_key_required
  /\ missing_key <> invalid_key_optional.
Proof. repeat split; discriminate. Qed.

(** ** The secret and the stored record *)

(** The string-valued entries of a stored record are the owner name, the
    tier name and the creation stamp. *)
Lemma key_data_strings name tier created f v :
  key_data name tier created !! f = Some (VStr v) ->
  v = name \/ v = tier \/ v = created.
Proof.
  unfold key_data. intros H. dict_entries H; simplify_eq; auto.
Qed.

Lemma demo_free_record_strings cf f v :
  demo_free_record cf !! f = Some (VStr v) ->
  v = "Demo Free User" \/ v = "free" \/ v = cf.
Proof.
  unfold demo_free_record. intros H. dict_entries H; simplify_eq; auto.
Qed.

Lemma demo_pro_record_strings cp f v :
  demo_pro_record cp !! f = Some (VStr v) ->
  v = "Demo Pro User" \/ v = "pro" \/ v = cp.
Proof.
  unfold demo_pro_record. intros H. dict_entries H; simplify_eq; auto.
Qed.

(** C9.  The secret is in the response of [create_api_key], under
    ["api_key"].  The record [get_key_info] returns for a secret, issued or
    demo, after any history from process start has no ["api_key"] entry and
    holds the secret in no field, the secret being none of the strings that
    callers and the creation clock supplied (owner names, tier names,
    creation stamps). *)
Theorem secret_not_in_record (cf cp : string) (ops : list op)
    (s : string) (d : dict) :
  get_key_info (run_ops (initial_state cf cp) ops) s = Some d ->
  ~ In s (supplied_strings cf cp ops) ->
  (forall st name tier token created,
      fst (create_api_key st name tier token created) !! "api_key"
      = Some (VStr (generate_api_key token)))
  /\ d !! "api_key" = None
  /\ (forall f, d !! f <> Some (VStr s)).
Proof.
  intros Hres Hnot.
  split; [intros; apply create_api_key_response|].
  unfold supplied_strings in Hnot. simpl in Hnot.
  destruct (get_key_info_origin _ _ _ _ _ Hres)
    as [[-> ->]|[[-> ->]|(n & t & tok & c & Hin & -> & ->)]].
  - split; [done|]. intros f Hf.
    apply demo_free_record_strings in Hf as [Hf|[Hf|Hf]]; try discriminate Hf.
    apply Hnot. left. done.
  - split; [done|]. intros f Hf.
    apply demo_pro_record_strings in Hf as [Hf|[Hf|Hf]]; try discriminate Hf.
    apply Hnot. right. left. done.
  - split; [done|]. intros f Hf.
    apply Hnot. right. right. apply in_flat_map.
    exists (Issue n t tok c). split; [done|].
    apply key_data_strings in Hf as [<-|[<-|<-]]; simpl; auto.
Qed.

Lemma secret_not_in_record_witness :
  get_key_info
    (run_ops (initial_state "2026-01-01T00:00:00" "2026-01-01T00:00:01")
       [Issue "alice" "pro" "t1" "2026-01-02T10:00:00"])
    (generate_api_key "t1")
  = Some (key_data "alice" "pro" "2026-01-02T10:00:00")
  /\ ~ In (generate_api_key "t1")
       (supplied_strings "2026-01-01T00:00:00" "2026-01-01T00:00:01"
          [Issue "alice" "pro" "t1" "2026-01-02T10:00:00"])
  /\ forall f, key_data "alice" "pro" "2026-01-02T10:00:00" !! f
               <> Some (VStr (generate_api_key "t1")).
Proof.
  assert (H1 : get_key_info
    (run_ops (initial_state "2026-01-01T00:00:00" "2026-01-01T00:00:01")
       [Issue "alice" "pro" "t1" "2026-01-02T10:00:00"])
    (generate_api_key "t1")
  = Some (key_data "alice" "pro" "2026-01-02T10:00:00")).
  { reflexivity. }
  assert (H2 : ~ In (generate_api_key "t1")
       (supplied_strings "2026-01-01T00:00:00" "2026-01-01T00:00:01"
          [Issue "alice" "pro" "t1" "2026-01-02T10:00:00"])).
  { simpl. intros [H|[H|[H|[H|[H|[]]]]]]; discriminate H. }
  exact (conj H1 (conj H2 (proj2 (proj2
    (secret_not_in_record _ _ _ _ _ H1 H2))))).
Defined.

(** ** Calls at one instant, one after the other *)

Lemma clean_repeat_now t c : clean (t - 60)%Q (repeat t c) = repeat t c.
Proof.
  unfold clean. induction c as [|c IH]; simpl; [done|].
  assert (H : later_than (t - 60)%Q t = true) by (apply later_than_spec; lra).
  by rewrite H, IH.
Qed.

(** [M] calls on one key with limit [L], served one after the other at the
    same clock reading [t], when the key's list holds [c] admissions of that
    instant: the first [L - c] of them are admitted and the rest denied. *)
Lemma same_instant_serial (M : nat) :
  forall (st : state) (k : string) (L : Z) (t : Q) (c : nat),
    window st k = repeat t c ->
    Z.of_nat (length (admissions k st (repeat (Check k L t) M)))
    = Z.min (Z.of_nat M) (Z.max 0 (L - Z.of_nat c)).
Proof.
  induction M as [|M IH]; intros st k L t c Hw.
  - simpl. lia.
  - cbn [repeat admissions].
    pose proof (window_step st (Check k L t) k) as Hstep.
    cbv beta iota zeta in Hstep. rewrite bool_decide_true in Hstep by done.
    rewrite Hw, clean_repeat_now, repeat_length in Hstep.
    rewrite bool_decide_true by done.
    rewrite check_rate_limit_unfold. cbv zeta.
    rewrite Hw, clean_repeat_now, repeat_length.
    destruct (Z.geb_spec (Z.of_nat c) L) as [Hfull|Hroom]; cbn [andb fst].
    + rewrite (IH _ k L t c Hstep). lia.
    + cbn [length]. rewrite Nat2Z.inj_succ.
      rewrite (IH _ k L t (S c)).
      * lia.
      * rewrite Hstep. clear. induction c as [|c IHc]; simpl; [done|].
        by rewrite IHc.
Qed.

(** ** Instances *)

Lemma check_rate_limit_admit_witness :
  Z.of_nat (length (clean (100 - 60)%Q [10%Q; 40%Q; 41%Q; 99%Q])) < 3
  /\ fst (check_rate_limit
            (set_window (initial_state "" "") "k" [10%Q; 40%Q; 41%Q; 99%Q])
            "k" 3 100) = true
  /\ window (snd (check_rate_limit
            (set_window (initial_state "" "") "k" [10%Q; 40%Q; 41%Q; 99%Q])
            "k" 3 100)) "k" = [41%Q; 99%Q; 100%Q].
Proof.
  assert (H : Z.of_nat (length (clean (100 - 60)%Q [10%Q; 40%Q; 41%Q; 99%Q])) < 3).
  { vm_compute. reflexivity. }
  split; [exact H|].
  pose proof (proj1 (proj2 (proj2 (proj2
    (check_rate_limit_admit
       (set_window (initial_state "" "") "k" [10%Q; 40%Q; 41%Q; 99%Q])
       "k" 3 100))))) as Hadmit.
  cbv zeta in Hadmit. rewrite window_set_window_eq in Hadmit.
  exact (Hadmit H).
Defined.

Lemma window_invariants_witness :
  nondecreasing (clock_readings [Check "k" 2 0; Check "k" 2 1] ++ [(3 # 2)%Q])
  /\ nondecreasing
       (window (snd (check_rate_limit
                       (run_ops (initial_state "" "")
                          [Check "k" 2 0; Check "k" 2 1])
                       "k" 2 (3 # 2))) "k").
Proof.
  assert (H : nondecreasing
                (clock_readings [Check "k" 2 0; Check "k" 2 1] ++ [(3 # 2)%Q])).
  { simpl. repeat split; unfold Qle; simpl; lia. }
  split; [exact H|].
  exact (proj1 (proj2
    (window_invariants "" "" [Check "k" 2 0; Check "k" 2 1] "k" 2 (3 # 2))) H).
Defined.

Lemma verify_api_key_contract_witness :
  get_key_info (run_ops (initial_state "a" "b") [Issue "n" "free" "t" "c"])
    demo_pro_secret = Some (demo_pro_record "b")
  /\ verify_api_key (run_ops (initial_state "a" "b") [Issue "n" "free" "t" "c"])
       (Some demo_pro_secret) = Return (Some (demo_pro_record "b")).
Proof.
  assert (H : get_key_info
                (run_ops (initial_state "a" "b") [Issue "n" "free" "t" "c"])
                demo_pro_secret = Some (demo_pro_record "b")).
  { reflexivity. }
  split; [exact H|].
  exact (proj2 (proj2 verify_api_key_contract) "a" "b" _ _ _ H).
Defined.

Example three_then_deny :
  admissions "k" (initial_state "" "")
    [Check "k" 3 0; Check "k" 3 (1 # 4); Check "k" 3 (1 # 2);
     Check "k" 3 59; Check "k" 3 (121 # 2)]
  = [0%Q; (1 # 4)%Q; (1 # 2)%Q; (121 # 2)%Q].
Proof. vm_compute. reflexivity. Qed.

(** ** More about the limiter *)

(** What a call decides and stores depends on the state through the list of
    its key only. *)
Lemma check_rate_limit_window st1 st2 k L t :
  window st1 k = window st2 k ->
  fst (check_rate_limit st1 k L t) = fst (check_rate_limit st2 k L t)
  /\ window (snd (check_rate_limit st1 k L t)) k
     = window (snd (check_rate_limit st2 k L t)) k.
Proof.
  intros Hw. rewrite !check_rate_limit_unfold. cbv zeta. rewrite Hw.
  destruct (Z.of_nat _ >=? L); simpl; by rewrite !window_set_window_eq.
Qed.

Lemma window_run_ops_cons st o ops k :
  window (run_ops st (o :: ops)) k = window (run_ops (step st o) ops) k.
Proof. done. Qed.

(** The stored list of [k] and the admissions of [k] agree on what is fresh
    at a clock reading no earlier than those of the history. *)
Lemma window_admissions_from (k : string) (ops : list op) :
  forall (st : state) (admitted : list Q) (t0 t : Q),
    nondecreasing_from t0 (clock_readings ops ++ [t]) ->
    clean (t0 - 60)%Q admitted = clean (t0 - 60)%Q (window st k) ->
    clean (t - 60)%Q (admitted ++ admissions k st ops)
    = clean (t - 60)%Q (window (run_ops st ops) k).
Proof.
  induction ops as [|o ops IH]; intros st admitted t0 t Hclock Hagree.
  - simpl in *. rewrite app_nil_r. destruct Hclock as [Hle _].
    rewrite <- (clean_clean (t0 - 60)%Q (t - 60)%Q admitted) by lra.
    rewrite <- (clean_clean (t0 - 60)%Q (t - 60)%Q (window st k)) by lra.
    by rewrite Hagree.
  - rewrite window_run_ops_cons.
    destruct o as [name tier token created|k' L' now].
    + simpl. by apply (IH _ _ t0).
    + simpl in Hclock. destruct Hclock as [Hle Hclock].
      assert (Hnow : clean (now - 60)%Q admitted =
                     clean (now - 60)%Q (window st k)).
      { rewrite <- (clean_clean (t0 - 60)%Q (now - 60)%Q admitted) by lra.
        rewrite <- (clean_clean (t0 - 60)%Q (now - 60)%Q (window st k)) by lra.
        by rewrite Hagree. }
      assert (Hidem : forall w, clean (now - 60)%Q (clean (now - 60)%Q w) =
                                clean (now - 60)%Q w).
      { intros w. apply clean_clean. lra. }
      cbn [admissions].
      pose proof (window_step st (Check k' L' now) k) as Hstep.
      cbv beta iota zeta in Hstep.
      destruct (decide (k' = k)) as [->|Hk].
      * rewrite bool_decide_true in Hstep by done.
        rewrite bool_decide_true by done.
        rewrite check_rate_limit_unfold. cbv zeta.
        destruct (Z.geb_spec (Z.of_nat (length (clean (now - 60)%Q (window st k)))) L')
          as [Hfull|Hroom]; cbn [andb fst].
        -- apply (IH _ _ now); [done|]. by rewrite Hstep, Hidem.
        -- rewrite cons_middle, app_assoc.
           apply (IH _ _ now); [done|].
           by rewrite Hstep, !clean_app, Hidem, Hnow.
      * rewrite bool_decide_false in Hstep by done.
        rewrite bool_decide_false by done. cbn [andb].
        apply (IH _ _ now); [done|]. by rewrite Hstep.
Qed.

(** X1.  Under a clock that does not run backwards the list stored for a key
    remembers exactly its admissions of the last 60 seconds: a call at
    reading [t] with limit [L] returns [True] if and only if fewer than [L]
    earlier calls on that key were admitted at readings later than
    [t - 60].  No call is denied for any other reason, whatever limits the
    earlier calls passed. *)
Theorem admission_decision (cf cp : string) (ops : list op)
    (k : string) (L : Z) (t : Q) :
  nondecreasing (clock_readings ops ++ [t]) ->
  fst (check_rate_limit (run_ops (initial_state cf cp) ops) k L t)
  = (Z.of_nat (length (clean (t - 60)%Q
                         (admissions k (initial_state cf cp) ops))) <? L).
Proof.
  intros Hclock.
  destruct (nondecreasing_has_start _ Hclock) as [t0 Hfrom].
  pose proof (window_admissions_from k ops (initial_state cf cp) [] t0 t Hfrom)
    as Hagree.
  simpl app in Hagree. rewrite Hagree by done.
  rewrite check_rate_limit_unfold. cbv zeta.
  destruct (Z.geb_spec
    (Z.of_nat (length (clean (t - 60)%Q
       (window (run_ops (initial_state cf cp) ops) k)))) L) as [H|H]; simpl.
  - symmetry. apply Z.ltb_ge. lia.
  - symmetry. by apply Z.ltb_lt.
Qed.

Lemma admission_decision_witness :
  nondecreasing (clock_readings
     [Check "k" 2 0; Check "k" 2 30; Check "k" 2 45; Check "j" 1 50] ++ [(121 # 2)%Q])
  /\ fst (check_rate_limit
            (run_ops (initial_state "" "")
               [Check "k" 2 0; Check "k" 2 30; Check "k" 2 45; Check "j" 1 50])
            "k" 2 (121 # 2))
     = (Z.of_nat (length (clean ((121 # 2) - 60)%Q
          (admissions "k" (initial_state "" "")
             [Check "k" 2 0; Check "k" 2 30; Check "k" 2 45; Check "j" 1 50])))
        <? 2).
Proof.
  assert (H : nondecreasing (clock_readings
     [Check "k" 2 0; Check "k" 2 30; Check "k" 2 45; Check "j" 1 50]
     ++ [(121 # 2)%Q])).
  { simpl. repeat split; unfold Qle; simpl; lia. }
  exact (conj H (admission_decision "" "" _ "k" 2 (121 # 2) H)).
Defined.

(** X2.  A denied call takes nothing from the quota: once a call on [k] at
    reading [t] has returned [False], a call on [k] at any reading
    [t' >= t] returns the same result and leaves the same state as it
    would have without the denied call. *)
Theorem denied_call_is_free (st : state) (k : string) (L L' : Z) (t t' : Q) :
  fst (check_rate_limit st k L t) = false ->
  (t <= t')%Q ->
  check_rate_limit (snd (check_rate_limit st k L t)) k L' t'
  = check_rate_limit st k L' t'.
Proof.
  intros Hdeny Hle.
  rewrite (check_rate_limit_unfold st k L t) in *. cbv zeta in *.
  destruct (Z.of_nat (length (clean (t - 60)%Q (window st k))) >=? L);
    [|discriminate Hdeny].
  simpl snd. rewrite !check_rate_limit_unfold. cbv zeta.
  rewrite window_set_window_eq, clean_clean by lra.
  by rewrite !set_window_twice.
Qed.

Lemma denied_call_is_free_witness :
  fst (check_rate_limit (set_window (initial_state "" "") "k" [1%Q; 2%Q]) "k" 2 3)
  = false
  /\ (3 <= 61)%Q
  /\ check_rate_limit
       (snd (check_rate_limit (set_window (initial_state "" "") "k" [1%Q; 2%Q])
               "k" 2 3)) "k" 2 61
     = check_rate_limit (set_window (initial_state "" "") "k" [1%Q; 2%Q]) "k" 2 61.
Proof.
  assert (H1 : fst (check_rate_limit
                      (set_window (initial_state "" "") "k" [1%Q; 2%Q]) "k" 2 3)
               = false).
  { reflexivity. }
  assert (H2 : (3 <= 61)%Q) by (unfold Qle; simpl; lia).
  exact (conj H1 (conj H2 (denied_call_is_free _ "k" 2 2 3 61 H1 H2))).
Defined.

Lemma clean_all_old t w :
  Forall (fun x => (x + 60 <= t)%Q) w -> clean (t - 60)%Q w = [].
Proof.
  unfold clean. induction w as [|x w IH]; simpl; [done|].
  intros [Hx Hw]%Forall_cons.
  assert (E : later_than (t - 60)%Q x = false) by (apply later_than_false; lra).
  rewrite E. by apply IH.
Qed.

(** X3.  A limit that is not positive shuts the key: in every state the
    call returns [False] and records nothing, and over a whole history in
    which every call on [k] passes such a limit no call on [k] is ever
    admitted. *)
Theorem nonpositive_limit_denies (k : string) (L : Z) :
  L <= 0 ->
  (forall st t,
      fst (check_rate_limit st k L t) = false
      /\ window (snd (check_rate_limit st k L t)) k
         = clean (t - 60)%Q (window st k))
  /\ (forall st ops, fixed_limit k L ops -> admissions k st ops = []).
Proof.
  intros HL.
  assert (Hone : forall st t,
      fst (check_rate_limit st k L t) = false
      /\ window (snd (check_rate_limit st k L t)) k
         = clean (t - 60)%Q (window st k)).
  { intros st t. rewrite check_rate_limit_unfold. cbv zeta.
    destruct (Z.geb_spec (Z.of_nat (length (clean (t - 60)%Q (window st k)))) L);
      [|lia].
    simpl. by rewrite window_set_window_eq. }
  split; [exact Hone|].
  intros st ops. revert st.
  induction ops as [|o ops IH]; intros st Hfix; [done|].
  apply Forall_cons in Hfix as [Ho Hfix]. cbn [admissions].
  destruct o as [name tier token created|k' L' t]; [by apply IH|].
  case_bool_decide as Hk; [|by apply IH].
  subst k'. rewrite (Ho eq_refl), (proj1 (Hone st t)). by apply IH.
Qed.

Lemma nonpositive_limit_denies_witness :
  0 <= 0
  /\ admissions "k" (initial_state "" "") [Check "k" 0 1; Check "j" 5 2; Check "k" 0 90]
     = [].
Proof.
  assert (H : 0 <= 0) by lia.
  split; [exact H|].
  apply (proj2 (nonpositive_limit_denies "k" 0 H)).
  unfold fixed_limit. repeat (apply Forall_cons; split); try apply Forall_nil.
  - reflexivity.
  - intros Hjk. discriminate Hjk.
  - reflexivity.
  - exact I.
Defined.

(** X4.  Once every timestamp stored for a key is at least 60 seconds old
    (none stored, for a key never seen, included) a call with a positive
    limit is admitted and the list starts over with the reading of that
    call alone. *)
Theorem idle_key_is_admitted (st : state) (k : string) (L : Z) (t : Q) :
  Forall (fun x => (x + 60 <= t)%Q) (window st k) ->
  0 < L ->
  fst (check_rate_limit st k L t) = true
  /\ window (snd (check_rate_limit st k L t)) k = [t].
Proof.
  intros Hold HL. rewrite check_rate_limit_unfold. cbv zeta.
  rewrite (clean_all_old t _ Hold). simpl length.
  destruct (Z.geb_spec (Z.of_nat 0) L); [lia|].
  simpl. by rewrite window_set_window_eq.
Qed.

Lemma idle_key_is_admitted_witness :
  Forall (fun x => (x + 60 <= 70)%Q)
    (window (set_window (initial_state "" "") "k" [5%Q; 10%Q]) "k")
  /\ 0 < 1
  /\ fst (check_rate_limit (set_window (initial_state "" "") "k" [5%Q; 10%Q])
            "k" 1 70) = true
  /\ window (snd (check_rate_limit
                    (set_window (initial_state "" "") "k" [5%Q; 10%Q]) "k" 1 70))
       "k" = [70%Q].
Proof.
  assert (H1 : Forall (fun x => (x + 60 <= 70)%Q)
                 (window (set_window (initial_state "" "") "k" [5%Q; 10%Q]) "k")).
  { rewrite window_set_window_eq.
    repeat constructor; unfold Qle; simpl; lia. }
  assert (H2 : 0 < 1) by lia.
  exact (conj H1 (conj H2 (idle_key_is_admitted _ "k" 1 70 H1 H2))).
Defined.

Lemma REQUEST_COUNTS_step st o :
  REQUEST_COUNTS (step st o) =
  match o with
  | Issue _ _ _ _ => REQUEST_COUNTS st
  | Check k _ _ => <[ k := window (step st o) k ]> (REQUEST_COUNTS st)
  end.
Proof.
  destruct o as [name tier token created|k L t]; [done|].
  simpl. rewrite check_rate_limit_unfold. cbv zeta.
  destruct (Z.of_nat _ >=? L); simpl; by rewrite window_set_window_eq.
Qed.

(** X5.  [REQUEST_COUNTS] holds an entry for exactly the keys that
    [check_rate_limit] was ever called with: a call creates the entry for
    its key even when it denies, and nothing ever removes an entry, not
    even when all its timestamps have expired. *)
Theorem request_counts_keys (cf cp : string) (ops : list op) :
  dom (REQUEST_COUNTS (run_ops (initial_state cf cp) ops))
  = list_to_set (checked_keys ops).
Proof.
  induction ops as [|o ops IH] using rev_ind.
  - simpl. by rewrite dom_empty_L.
  - rewrite run_ops_snoc, REQUEST_COUNTS_step.
    unfold checked_keys in *. rewrite flat_map_app, list_to_set_app_L. simpl.
    destruct o as [name tier token created|k L t]; simpl.
    + by rewrite IH, (right_id_L ∅ (∪)).
    + by rewrite dom_insert_L, IH, (right_id_L ∅ (∪)), (comm_L (∪)).
Qed.

(** Two states that store the same list for [k] give the calls on [k] the
    same results, whatever else the histories do. *)
Lemma admissions_on_key k ops :
  forall st1 st2,
    window st1 k = window st2 k ->
    admissions k st1 ops = admissions k st2 (List.filter (on_key k) ops).
Proof.
  induction ops as [|o ops IH]; intros st1 st2 Hw; [done|].
  cbn [admissions List.filter].
  destruct o as [name tier token created|k' L t]; cbn [on_key].
  - apply IH. by rewrite window_step.
  - case_bool_decide as Hk.
    + subst k'. cbn [admissions]. rewrite bool_decide_true by done.
      destruct (check_rate_limit_window st1 st2 k L t Hw) as [Hfst Hsnd].
      rewrite Hfst.
      rewrite (IH (step st1 (Check k L t)) (step st2 (Check k L t))) by exact Hsnd.
      done.
    + cbn [andb]. apply IH.
      rewrite window_step, bool_decide_false by done. exact Hw.
Qed.

(** X6.  Keys are limited apart: which calls on [k] are admitted depends on
    the calls on [k] alone.  Dropping from a history every call on another
    key and every key issuance leaves the admissions of [k] as they were. *)
Theorem limiter_keys_are_independent (st : state) (k : string) (ops : list op) :
  admissions k st ops = admissions k st (List.filter (on_key k) ops).
Proof. by apply admissions_on_key. Qed.

(** ** More about the key store *)

Lemma API_KEYS_secret_not_drawn st ops s :
  secret_not_drawn s ops ->
  API_KEYS (run_ops st ops) !! s = API_KEYS st !! s.
Proof.
  induction ops as [|o ops IH] using rev_ind; [done|].
  unfold secret_not_drawn. rewrite Forall_app, Forall_singleton.
  intros [Hops Ho]. rewrite run_ops_snoc, API_KEYS_step.
  destruct o as [name tier token created|k L now]; [|by apply IH].
  rewrite lookup_insert_ne by done. by apply IH.
Qed.

(** A generated key is looked up among the registered keys. *)
Lemma get_key_info_generated cf cp ops token :
  get_key_info (run_ops (initial_state cf cp) ops) (generate_api_key token)
  = API_KEYS (run_ops (initial_state cf cp) ops) !! generate_api_key token.
Proof.
  unfold get_key_info.
  destruct (generate_api_key_not_demo token) as [Hf Hp].
  by rewrite demo_lookup_other.
Qed.

(** X7.  What a string resolves to changes only when [create_api_key]
    generates that very string again: over any run of calls that does not,
    [get_key_info] answers for it as before.  So an issued record is never
    revoked or edited (its tier and limit stay as issued), and a string that
    does not resolve stays unresolved. *)
Theorem key_record_is_stable (st : state) (ops : list op) (s : string) :
  secret_not_drawn s ops ->
  get_key_info (run_ops st ops) s = get_key_info st s.
Proof.
  intros Hs. unfold get_key_info.
  by rewrite DEMO_KEYS_run_ops, API_KEYS_secret_not_drawn.
Qed.

Lemma key_record_is_stable_witness :
  secret_not_drawn "ngcm_t1" [Check "ngcm_t1" 10 5; Issue "bob" "pro" "t2" "c2"]
  /\ get_key_info
       (run_ops (snd (create_api_key (initial_state "a" "b") "al" "pro" "t1" "c1"))
          [Check "ngcm_t1" 10 5; Issue "bob" "pro" "t2" "c2"]) "ngcm_t1"
     = get_key_info
         (snd (create_api_key (initial_state "a" "b") "al" "pro" "t1" "c1"))
         "ngcm_t1".
Proof.
  assert (H : secret_not_drawn "ngcm_t1"
                [Check "ngcm_t1" 10 5; Issue "bob" "pro" "t2" "c2"]).
  { unfold secret_not_drawn. repeat (apply Forall_cons; split);
      try apply Forall_nil.
    - exact I.
    - intros Heq. discriminate Heq.
    - exact I. }
  exact (conj H (key_record_is_stable _ _ "ngcm_t1" H)).
Defined.

(** X8.  [create_api_key] does not check that the generated key is new: when
    the generator returns a token a second time, the second record replaces
    the first, and the secret handed to the first owner resolves to the
    second owner's metadata from then on. *)
Theorem reissued_token_overwrites (cf cp : string) (ops1 ops2 : list op)
    (name1 tier1 created1 name2 tier2 created2 token : string) :
  let st1 := snd (create_api_key (run_ops (initial_state cf cp) ops1)
                    name1 tier1 token created1) in
  let st2 := snd (create_api_key (run_ops st1 ops2)
                    name2 tier2 token created2) in
  fst (create_api_key (run_ops (initial_state cf cp) ops1)
         name1 tier1 token created1) !! "api_key"
  = fst (create_api_key (run_ops st1 ops2) name2 tier2 token created2)
      !! "api_key"
  /\ get_key_info st2 (generate_api_key token)
     = Some (key_data name2 tier2 created2).
Proof.
  intros st1 st2. split.
  - by rewrite !(proj1 (create_api_key_response _ _ _ _ _)).
  - unfold get_key_info, st2. simpl DEMO_KEYS.
    rewrite DEMO_KEYS_run_ops. unfold st1. simpl DEMO_KEYS.
    rewrite DEMO_KEYS_run_ops.
    destruct (generate_api_key_not_demo token) as [Hf Hp].
    assert (Hnone : DEMO_KEYS (initial_state cf cp) !! generate_api_key token
                    = None).
    { simpl. by simplify_map_eq. }
    rewrite Hnone. simpl. apply lookup_insert_eq.
Qed.

Lemma token_unused_issued_tokens token ops :
  ~ In token (issued_tokens ops) -> token_unused token ops.
Proof.
  unfold token_unused, issued_tokens. induction ops as [|o ops IH]; [done|].
  simpl. rewrite in_app_iff. intros Hnot. apply Forall_cons. split.
  - destruct o as [name tier token' created|k L t]; [|done].
    intros ->. apply Hnot. left. by left.
  - apply IH. intros Hin. apply Hnot. by right.
Qed.

Lemma issued_tokens_app ops1 ops2 :
  issued_tokens (ops1 ++ ops2) = issued_tokens ops1 ++ issued_tokens ops2.
Proof. unfold issued_tokens. apply flat_map_app. Qed.

Lemma generate_api_key_NoDup tokens :
  List.NoDup tokens -> List.NoDup (map generate_api_key tokens).
Proof.
  induction 1 as [|token tokens Hnotin Hnodup IH]; simpl; constructor; [|done].
  rewrite in_map_iff. intros (token' & Heq & Hin).
  apply generate_api_key_inj in Heq. by subst.
Qed.

(** X9.  As long as the generator never repeats a token, issued secrets are
    pairwise distinct and every one of them keeps resolving to the record of
    its own [create_api_key] call, however many keys are issued after it. *)
Theorem issued_keys_all_resolve (cf cp : string) (ops : list op) :
  List.NoDup (issued_tokens ops) ->
  List.NoDup (map generate_api_key (issued_tokens ops))
  /\ (forall name tier token created,
        In (Issue name tier token created) ops ->
        get_key_info (run_ops (initial_state cf cp) ops) (generate_api_key token)
        = Some (key_data name tier created)).
Proof.
  intros Hnodup. split; [by apply generate_api_key_NoDup|].
  intros name tier token created Hin.
  apply in_split in Hin as (ops1 & ops2 & ->).
  rewrite issued_tokens_app in Hnodup. simpl in Hnodup.
  apply NoDup_remove_2 in Hnodup.
  assert (Hunused : token_unused token ops2).
  { apply token_unused_issued_tokens. intros Hin. apply Hnodup.
    apply in_app_iff. by right. }
  rewrite get_key_info_generated.
  rewrite (run_ops_app _ ops1 (Issue name tier token created :: ops2)).
  change (run_ops ?st (?o :: ?l)) with (run_ops (step st o) l).
  rewrite API_KEYS_token_unused by done.
  rewrite API_KEYS_step. apply lookup_insert_eq.
Qed.

Lemma issued_keys_all_resolve_witness :
  List.NoDup (issued_tokens
    [Issue "al" "pro" "t1" "c1"; Check "ngcm_t1" 300 0; Issue "bo" "free" "t2" "c2"])
  /\ get_key_info
       (run_ops (initial_state "a" "b")
          [Issue "al" "pro" "t1" "c1"; Check "ngcm_t1" 300 0;
           Issue "bo" "free" "t2" "c2"])
       (generate_api_key "t1")
     = Some (key_data "al" "pro" "c1").
Proof.
  assert (H : List.NoDup (issued_tokens
    [Issue "al" "pro" "t1" "c1"; Check "ngcm_t1" 300 0;
     Issue "bo" "free" "t2" "c2"])).
  { simpl. constructor.
    - intros [Heq|[]]. discriminate Heq.
    - constructor; [intros []|constructor]. }
  split; [exact H|].
  apply (proj2 (issued_keys_all_resolve "a" "b" _ H)).
  left. reflexivity.
Defined.

Lemma API_KEYS_issues_only ops :
  forall st1 st2,
    API_KEYS st1 = API_KEYS st2 ->
    API_KEYS (run_ops st1 ops) = API_KEYS (run_ops st2 (List.filter is_issue ops)).
Proof.
  induction ops as [|o ops IH]; intros st1 st2 Heq; [done|].
  change (run_ops st1 (o :: ops)) with (run_ops (step st1 o) ops).
  destruct o as [name tier token created|k L t]; cbn [List.filter is_issue].
  - change (run_ops st2 (?o :: ?l)) with (run_ops (step st2 o) l).
    apply IH. by rewrite !API_KEYS_step, Heq.
  - apply IH. by rewrite API_KEYS_step.
Qed.

(** X10.  Rate limiting never touches the key store: what any string
    resolves to after a history is what it resolves to after the
    [create_api_key] calls of that history alone. *)
Theorem limiter_leaves_key_store (st : state) (ops : list op) (s : string) :
  get_key_info (run_ops st ops) s
  = get_key_info (run_ops st (List.filter is_issue ops)) s.
Proof.
  unfold get_key_info. rewrite !DEMO_KEYS_run_ops.
  by rewrite (API_KEYS_issues_only ops st st).
Qed.

(** X11.  The two dependencies agree on every presented key, in every
    state: [require_api_key] returns a record exactly when [verify_api_key]
    returns that record, and raises the invalid-key error exactly when
    [verify_api_key] does; they part only when no key is presented, where
    one returns [None] and the other raises the key-required error. *)
Theorem dependencies_agree (st : state) (api_key : option string) :
  match require_api_key st api_key with
  | Return d => verify_api_key st api_key = Return (Some d)
  | Raise e =>
      (e = missing_key /\ truthy_key api_key = false
       /\ verify_api_key st api_key = Return None)
      \/ (e = invalid_key_required /\ truthy_key api_key = true
          /\ verify_api_key st api_key = Raise invalid_key_optional)
  end.
Proof.
  unfold require_api_key, verify_api_key.
  destruct (truthy_key api_key); simpl; [|by left].
  destruct (get_key_info st (default "" api_key)) as [d|]; simpl.
  - case_bool_decide; simpl; [by right|done].
  - by right.
Qed.

Lemma API_KEYS_issued st ops token :
  In token (issued_tokens ops) ->
  is_Some (API_KEYS (run_ops st ops) !! generate_api_key token).
Proof.
  induction ops as [|o ops IH] using rev_ind; [done|].
  rewrite issued_tokens_app, in_app_iff, run_ops_snoc, API_KEYS_step.
  destruct o as [name tier token' created|k L t]; simpl.
  - intros [Hin|[->|[]]].
    + destruct (decide (generate_api_key token' = generate_api_key token))
        as [->|Hne].
      * rewrite lookup_insert_eq. by eexists.
      * rewrite lookup_insert_ne by done. by apply IH.
    + rewrite lookup_insert_eq. by eexists.
  - intros [Hin|[]]. by apply IH.
Qed.

Lemma In_issued_tokens name tier token created ops :
  In (Issue name tier token created) ops -> In token (issued_tokens ops).
Proof.
  intros Hin. unfold issued_tokens. apply in_flat_map.
  exists (Issue name tier token created). split; [done|]. by left.
Qed.

(** X12.  Lookup is by exact match and nothing else authenticates: after
    any history from process start the strings that [get_key_info] resolves
    are the two demo secrets and the keys that [create_api_key] generated,
    and no others. *)
Theorem resolvable_strings (cf cp : string) (ops : list op) (s : string) :
  is_Some (get_key_info (run_ops (initial_state cf cp) ops) s)
  <-> s = demo_free_secret \/ s = demo_pro_secret
      \/ exists token, In token (issued_tokens ops) /\ s = generate_api_key token.
Proof.
  split.
  - intros [d Hd].
    destruct (get_key_info_origin _ _ _ _ _ Hd)
      as [[-> _]|[[-> _]|(n & t & tok & c & Hin & -> & _)]]; [by auto..|].
    right. right. exists tok. split; [|done]. by eapply In_issued_tokens.
  - intros [->|[->|(token & Hin & ->)]].
    + unfold get_key_info. rewrite demo_lookup_free. by eexists.
    + unfold get_key_info. rewrite demo_lookup_pro. by eexists.
    + rewrite get_key_info_generated. by apply API_KEYS_issued.
Qed.

(** ** Registration and key info *)

Lemma register_api_key_lookup st name token created f :
  f <> "usage" -> f <> "upgrade" ->
  fst (register_api_key st name token created) !! f
  = match fst (create_api_key st name "free" token created) !! f with
    | Some v => Some (BVal v)
    | None =>
        ({[ "success" := BBool true;
            "message" := BVal (VStr
              "API key created! Save it securely - it won't be shown again.") ]}
           : gmap string body_value) !! f
    end.
Proof.
  intros H1 H2. unfold register_api_key. cbn [fst].
  rewrite !lookup_insert_ne by done.
  rewrite lookup_union, lookup_fmap.
  destruct (fst (create_api_key st name "free" token created) !! f); simpl.
  - apply union_Some_l.
  - apply (left_id_L None (∪)).
Qed.

(** X13.  Registering and then asking for the key info is a round trip.
    [register_api_key] answers with [success], the new secret, the owner
    name as given, tier [free] and limit 10, whatever the name is; and
    after any later history that draws other tokens, [get_api_key_info]
    with that secret answers [success] with the stored record, which is the
    registration response without the secret and the four texts around
    it. *)
Theorem register_then_key_info (cf cp : string) (ops1 ops2 : list op)
    (name token created : string) :
  token_unused token ops2 ->
  let st1 := run_ops (initial_state cf cp) ops1 in
  let response := fst (register_api_key st1 name token created) in
  let st2 := run_ops (snd (register_api_key st1 name token created)) ops2 in
  response !! "success" = Some (BBool true)
  /\ response !! "api_key" = Some (BVal (VStr (generate_api_key token)))
  /\ response !! "name" = Some (BVal (VStr name))
  /\ response !! "tier" = Some (BVal (VStr "free"))
  /\ response !! "rate_limit" = Some (BVal (VInt 10))
  /\ get_api_key_info st2 (Some (generate_api_key token))
     = Return {[ "success" := BBool true;
                 "key_info" := BDict (key_data name "free" created) ]}
  /\ (forall f v, key_data name "free" created !! f = Some v ->
                  response !! f = Some (BVal v))
  /\ key_data name "free" created !! "api_key" = None.
Proof.
  intros Hfresh st1 response st2.
  assert (Hst2 : st2 = run_ops (initial_state cf cp)
                         ((ops1 ++ [Issue name "free" token created]) ++ ops2)).
  { unfold st2, st1. by rewrite run_ops_app, run_ops_snoc. }
  assert (Hres : get_key_info st2 (generate_api_key token)
                 = Some (key_data name "free" created)).
  { rewrite Hst2, get_key_info_generated.
    rewrite run_ops_app, API_KEYS_token_unused by done.
    rewrite run_ops_snoc, API_KEYS_step. apply lookup_insert_eq. }
  unfold response.
  repeat split; try (by rewrite register_api_key_lookup).
  - unfold get_api_key_info. rewrite Hst2 in *.
    by rewrite (require_api_key_resolved _ _ _ _ _ Hres).
  - intros f v Hf.
    assert (Hfields : f <> "usage" /\ f <> "upgrade").
    { split; intros ->; discriminate Hf. }
    destruct Hfields as [H1 H2].
    rewrite register_api_key_lookup by done.
    cbn [create_api_key fst].
    by rewrite (lookup_union_Some_l _ _ _ _ Hf).
Qed.

Lemma register_then_key_info_witness :
  token_unused "t1" [Check "ngcm_t1" 10 0; Issue "bob" "pro" "t2" "c2"]
  /\ get_api_key_info
       (run_ops (snd (register_api_key (initial_state "a" "b") "alice" "t1" "c1"))
          [Check "ngcm_t1" 10 0; Issue "bob" "pro" "t2" "c2"])
       (Some (generate_api_key "t1"))
     = Return {[ "success" := BBool true;
                 "key_info" := BDict (key_data "alice" "free" "c1") ]}.
Proof.
  assert (H : token_unused "t1"
                [Check "ngcm_t1" 10 0; Issue "bob" "pro" "t2" "c2"]).
  { repeat constructor. discriminate. }
  split; [exact H|].
  exact (proj1 (proj2 (proj2 (proj2 (proj2 (proj2
    (register_then_key_info "a" "b" [] _ "alice" "t1" "c1" H))))))).
Defined.

(** ** Weather codes and icons *)

Lemma Qeq_bool_inject_Z q m :
  Qeq_bool q (inject_Z m) = (Qnum q =? m * Zpos (Qden q)).
Proof. unfold Qeq_bool, inject_Z. simpl. by rewrite Z.mul_1_r. Qed.

(** A value that a dict with integer keys finds under [n] equals [n] and
    no other integer. *)
Lemma py_eq_int_key code n m :
  json_int_key code = Some n -> py_eq_int code m = (n =? m).
Proof.
  destruct code as [|b|k|[q| | |]|s|l|o]; simpl; try discriminate.
  - by intros [= <-].
  - by intros [= <-].
  - rewrite Qeq_bool_inject_Z.
    destruct (Z.eqb_spec (Qnum q mod Z.pos (Qden q)) 0) as [Hmod|]; [|discriminate].
    intros [= <-].
    apply Z.div_exact in Hmod; [|lia].
    destruct (Z.eqb_spec (Qnum q / Z.pos (Qden q)) m) as [<-|Hne].
    + apply Z.eqb_eq. lia.
    + apply Z.eqb_neq. intros Heq. apply Hne.
      rewrite Heq. apply Z.div_mul. lia.
Qed.

Lemma py_eq_int_no_key code m :
  json_int_key code = None -> py_eq_int code m = false.
Proof.
  destruct code as [|b|k|[q| | |]|s|l|o]; simpl; try discriminate; try done.
  rewrite Qeq_bool_inject_Z.
  destruct (Z.eqb_spec (Qnum q mod Z.pos (Qden q)) 0) as [|Hmod]; [discriminate|].
  intros _. apply Z.eqb_neq. intros Heq. apply Hmod.
  rewrite Heq. apply Z.mod_mul. lia.
Qed.

Lemma _get_weather_icon_key code n :
  json_int_key code = Some n -> _get_weather_icon code = _get_weather_icon (JInt n).
Proof.
  intros Hkey. unfold _get_weather_icon, py_in_ints. simpl existsb.
  by rewrite !(py_eq_int_key code n _ Hkey).
Qed.

Lemma _get_weather_icon_no_key code :
  json_int_key code = None -> _get_weather_icon code = "🌡️".
Proof.
  intros Hkey. unfold _get_weather_icon, py_in_ints. simpl existsb.
  by rewrite !(py_eq_int_no_key code _ Hkey).
Qed.

(** The keys of the table. *)
Lemma WEATHER_CODES_keys n :
  WEATHER_CODES !! n = None <->
  ~ In n [0; 1; 2; 3; 45; 48; 51; 53; 55; 61; 63; 65; 66; 67; 71; 73; 75; 77;
          80; 81; 82; 85; 86; 95; 96; 99].
Proof.
  unfold WEATHER_CODES. rewrite <- not_elem_of_list_to_map.
  rewrite list_elem_of_In. reflexivity.
Qed.

(** The codes of the icon chain. *)
Lemma _get_weather_icon_codes n :
  _get_weather_icon (JInt n) = "🌡️" <->
  ~ In n [0; 1; 2; 3; 45; 48; 51; 53; 55; 61; 63; 65; 66; 67; 71; 73; 75; 77;
          80; 81; 82; 85; 86; 95; 96; 99].
Proof.
  unfold _get_weather_icon, py_in_ints. cbn [existsb py_eq_int orb].
  repeat match goal with
         | |- context [Z.eqb n ?c] =>
             destruct (Z.eqb_spec n c) as [->|?];
             [cbn [orb]; split;
              [intros H; discriminate H
              |intros H; exfalso; apply H; cbn [In]; tauto]|]
         end.
  cbn [orb]. split; [|done]. intros _. cbn [In]. intuition congruence.
Qed.

(** The table and the icon chain name the same 26 codes. *)
Lemma _get_weather_icon_int n :
  WEATHER_CODES !! n = None <-> _get_weather_icon (JInt n) = "🌡️".
Proof. by rewrite WEATHER_CODES_keys, _get_weather_icon_codes. Qed.

Lemma WEATHER_CODES_no_Unknown n : WEATHER_CODES !! n <> Some "Unknown".
Proof.
  intros H. apply elem_of_list_to_map_2 in H. simpl in H.
  repeat (apply elem_of_cons in H as [H|H]; [discriminate H|]).
  by apply elem_of_nil in H.
Qed.

#[local] Opaque WEATHER_CODES.

(** What the lookup returns when it returns. *)
Lemma WEATHER_CODES_get_Done code dflt d :
  WEATHER_CODES_get code dflt = Done d ->
  d = match json_int_key code with
      | Some n => default dflt (WEATHER_CODES !! n)
      | None => dflt
      end.
Proof.
  unfold WEATHER_CODES_get. intros Hget.
  destruct code as [|b|k|x|s|l|o];
    [idtac..|discriminate Hget|discriminate Hget];
    apply (f_equal (fun r => match r with Done x => x | Raised _ => d end))
      in Hget;
    symmetry; exact Hget.
Qed.

(** X14.  The description table and the icon chain cover the same weather
    codes: whenever the lookup [WEATHER_CODES.get(code, "Unknown")] of
    [get_forecast] returns, it returns ["Unknown"] exactly for the codes to
    which [_get_weather_icon] gives the fallback thermometer icon.  This
    holds for every value the service can send as a code, a float such as
    [95.0] included. *)
Theorem weather_code_icon_matches_table (code : json) (description : string) :
  WEATHER_CODES_get code "Unknown" = Done description ->
  (description = "Unknown" <-> _get_weather_icon code = "🌡️").
Proof.
  intros Hget.
  pose proof (WEATHER_CODES_get_Done _ _ _ Hget) as Hd.
  clear Hget. destruct (json_int_key code) as [n|] eqn:Hkey.
  - rewrite (_get_weather_icon_key code n Hkey), <- _get_weather_icon_int.
    pose proof (WEATHER_CODES_no_Unknown n) as Hno.
    destruct (WEATHER_CODES !! n) as [d|]; simpl in Hd; subst description.
    + split; [intros ->; exfalso; apply Hno; reflexivity|intros H; discriminate H].
    + split; intros _; reflexivity.
  - rewrite (_get_weather_icon_no_key code Hkey), Hd. split; intros _; reflexivity.
Qed.

Lemma weather_code_icon_matches_table_witness :
  WEATHER_CODES_get (JFloat (FFinite (190 # 2))) "Unknown" = Done "Thunderstorm"
  /\ ("Thunderstorm" = "Unknown"
      <-> _get_weather_icon (JFloat (FFinite (190 # 2))) = "🌡️").
Proof.
  assert (H : WEATHER_CODES_get (JFloat (FFinite (190 # 2))) "Unknown"
              = Done "Thunderstorm").
  { vm_compute. reflexivity. }
  exact (conj H (weather_code_icon_matches_table _ _ H)).
Defined.

(** ** Extreme events *)

Lemma truthy_false_numeric v : truthy v = false -> numeric_or_falsy v.
Proof.
  destruct v as [|b|m|x|s|l|o]; simpl; try done.
  - intros H. apply negb_false_iff in H. by apply String.eqb_eq.
  - by destruct l.
  - by destruct o.
Qed.

Lemma py_gt_int_Done v n b : py_gt_int v n = Done b -> numeric_or_falsy v.
Proof. by destruct v. Qed.

Lemma py_gt_int_Raised v n e :
  truthy v = true -> py_gt_int v n = Raised e ->
  e = TypeError /\ ~ numeric_or_falsy v.
Proof.
  destruct v as [|b|m|x|s|l|o]; simpl; try discriminate.
  - intros H [= <-]. split; [done|]. intros ->. discriminate H.
  - intros H [= <-]. split; [done|]. intros ->. discriminate H.
  - intros H [= <-]. split; [done|]. intros ->. discriminate H.
Qed.

Lemma py_gt_int_total v n m b : py_gt_int v n = Done b -> exists b', py_gt_int v m = Done b'.
Proof. destruct v; simpl; try discriminate; by eexists. Qed.

Lemma py_in_ints_hashable v l dflt :
  py_in_ints v l = true -> exists d, WEATHER_CODES_get v dflt = Done d.
Proof.
  unfold py_in_ints, WEATHER_CODES_get.
  destruct v as [|b|m|x|s|lst|o]; try (intros _; by eexists).
  - induction l as [|c l IH]; simpl; [discriminate|done].
  - induction l as [|c l IH]; simpl; [discriminate|done].
Qed.


(** The shape of the first two alert blocks: [if v and v > n: ...]. *)
Lemma guarded_gt v n (k : bool -> py (list json)) :
  (forall b, py_gt_int v n = Done b ->
             exists l, k b = Done l /\ (length l <= 1)%nat) ->
  match (if truthy v then py_gt_int v n ≫= k else mret []) with
  | Done l => numeric_or_falsy v /\ (length l <= 1)%nat
  | Raised e => e = TypeError /\ ~ numeric_or_falsy v
  end.
Proof.
  intros Hk. destruct (truthy v) eqn:Ht.
  - destruct (py_gt_int v n) as [b|e] eqn:Hgt; py_step.
    + destruct (Hk b eq_refl) as (l & -> & Hl).
      split; [by eapply py_gt_int_Done|done].
    + by eapply py_gt_int_Raised.
  - split; [by apply truthy_false_numeric|simpl; lia].
Qed.

Lemma day_alerts_day_data py_str f :
  match day_alerts py_str (day_data f) with
  | Done alerts =>
      numeric_or_falsy (f_amount f) /\ numeric_or_falsy (f_temp_max f)
      /\ (length alerts <= 3)%nat
  | Raised e =>
      e = TypeError
      /\ ~ (numeric_or_falsy (f_amount f) /\ numeric_or_falsy (f_temp_max f))
  end.
Proof.
  unfold day_alerts, day_data.
  cbn [py_get assoc String.eqb Ascii.eqb Bool.eqb default from_option id mbind py_bind].
  py_step.
  assert (Hstorm : exists storm,
    (if py_in_ints (f_code f) [95; 96; 99]
     then message ← WEATHER_CODES_get (f_code f) "Thunderstorm expected";
          mret [alert (f_date f) "THUNDERSTORM"
                  (if py_eq_int (f_code f) 99 then "HIGH" else "MODERATE") message]
     else mret []) = Done storm /\ (length storm <= 1)%nat).
  { destruct (py_in_ints (f_code f) [95; 96; 99]) eqn:Hin.
    - destruct (py_in_ints_hashable _ _ "Thunderstorm expected" Hin) as [d ->].
      eexists. split; [reflexivity|simpl; lia].
    - eexists. split; [reflexivity|simpl; lia]. }
  destruct Hstorm as (storm & Hstorm & Hlen).
  match goal with
  | |- context [if truthy (f_amount f) then py_gt_int _ 20 ≫= ?k else _] =>
      pose proof (guarded_gt (f_amount f) 20 k) as Hheavy
  end.
  match goal with
  | |- context [if truthy (f_temp_max f) then py_gt_int _ 40 ≫= ?k else _] =>
      pose proof (guarded_gt (f_temp_max f) 40 k) as Hheat
  end.
  cbv beta in Hheavy, Hheat.
  lapply Hheavy; [clear Hheavy; intros Hheavy|].
  2:{ intros [] Hgt.
      - destruct (py_gt_int_total _ _ 50 _ Hgt) as [high ->].
        eexists. split; [reflexivity|simpl; lia].
      - eexists. split; [reflexivity|simpl; lia]. }
  lapply Hheat; [clear Hheat; intros Hheat|].
  2:{ intros [] Hgt; eexists; (split; [reflexivity|simpl; lia]). }
  destruct (if truthy (f_amount f) then _ else _) as [heavy|e];
    py_step; [|tauto].
  destruct (if truthy (f_temp_max f) then _ else _) as [heat|e];
    py_step; [|tauto].
  rewrite Hstorm. py_step.
  rewrite !length_app. destruct Hheavy as [? ?], Hheat as [? ?].
  repeat split; try done. lia.
Qed.

Lemma scan_days_day_data py_str (days : list day_fields) :
  match scan_days py_str (map day_data days) with
  | Done alerts =>
      Forall (fun f => numeric_or_falsy (f_amount f)
                       /\ numeric_or_falsy (f_temp_max f)) days
      /\ (length alerts <= 3 * length days)%nat
  | Raised e =>
      e = TypeError
      /\ Exists (fun f => ~ (numeric_or_falsy (f_amount f)
                             /\ numeric_or_falsy (f_temp_max f))) days
  end.
Proof.
  induction days as [|f days IH]; [by split|].
  cbn [map scan_days].
  pose proof (day_alerts_day_data py_str f) as Hday.
  destruct (day_alerts py_str (day_data f)) as [here|e]; py_step.
  - destruct (scan_days py_str (map day_data days)) as [later|e]; py_step.
    + destruct Hday as (Ha & Ht & Hl), IH as [Hall Hlen].
      split; [by constructor|]. rewrite length_app. simpl length. lia.
    + destruct IH as [-> Hex]. split; [done|]. by apply Exists_cons_tl.
  - destruct Hday as [-> Hbad]. split; [done|]. by apply Exists_cons_hd.
Qed.

(** X15.  For a successful forecast whose days are the [day_data] objects
    that [get_forecast] builds, [get_extreme_events] either returns, with
    [alert_count] the number of alerts and at most three alerts per day, or
    raises [TypeError]; it raises exactly when some day's precipitation
    amount or maximum temperature is a non-empty string, list or object.
    Numbers, [null], [NaN] and the infinities never make it fail. *)
Theorem extreme_events_outcome (py_str : json -> string)
    (forecast : gmap string json) (days : list day_fields) :
  truthy (default JNull (forecast !! "success")) = true ->
  forecast !! "forecast" = Some (JList (map day_data days)) ->
  match get_extreme_events py_str forecast with
  | Done result =>
      Forall (fun f => numeric_or_falsy (f_amount f)
                       /\ numeric_or_falsy (f_temp_max f)) days
      /\ exists alerts,
           result !! "alerts" = Some (JList alerts)
           /\ result !! "alert_count" = Some (JInt (Z.of_nat (length alerts)))
           /\ (length alerts <= 3 * length days)%nat
  | Raised e =>
      e = TypeError
      /\ Exists (fun f => ~ (numeric_or_falsy (f_amount f)
                             /\ numeric_or_falsy (f_temp_max f))) days
  end.
Proof.
  intros Hok Hdays. unfold get_extreme_events.
  rewrite Hok, Hdays. cbn [negb default from_option id py_iter]. py_step.
  pose proof (scan_days_day_data py_str days) as Hscan.
  destruct (scan_days py_str (map day_data days)) as [alerts|e]; py_step;
    [|done].
  destruct Hscan as [Hall Hlen]. split; [done|].
  exists alerts. by repeat split.
Qed.

Lemma extreme_events_outcome_witness :
  let forecast : gmap string json :=
    {[ "success" := JBool true;
       "forecast" := JList (map day_data
         [mkDayFields (JStr "2026-01-01") (JFloat (FFinite (83 # 2))) (JInt 30)
            (JFloat (FFinite (51 # 2))) (JInt 90) (JInt 95)
            (JStr "Thunderstorm") (JStr "") (JNull) (JNull)]) ]} in
  truthy (default JNull (forecast !! "success")) = true
  /\ match get_extreme_events (fun _ => "") forecast with
     | Done result =>
         exists alerts, result !! "alerts" = Some (JList alerts)
                        /\ (length alerts <= 3 * 1)%nat
     | Raised e => e = TypeError
     end.
Proof.
  cbv zeta.
  assert (H1 : truthy (default JNull
    (({[ "success" := JBool true;
       "forecast" := JList (map day_data
         [mkDayFields (JStr "2026-01-01") (JFloat (FFinite (83 # 2))) (JInt 30)
            (JFloat (FFinite (51 # 2))) (JInt 90) (JInt 95)
            (JStr "Thunderstorm") (JStr "") (JNull) (JNull)]) ]}
      : gmap string json) !! "success")) = true).
  { reflexivity. }
  split; [exact H1|].
  pose proof (extreme_events_outcome (fun _ => "") _ _ H1 eq_refl) as H.
  destruct (get_extreme_events _ _) as [result|e].
  - destruct H as (_ & alerts & Ha & _ & Hlen). by exists alerts.
  - by destruct H.
Defined.




(** The three codes that raise a thunderstorm alert have descriptions. *)
Lemma thunderstorm_description code dflt d :
  py_in_ints code [95; 96; 99] = true ->
  WEATHER_CODES_get code dflt = Done d ->
  d = "Thunderstorm" \/ d = "Thunderstorm with slight hail"
  \/ d = "Thunderstorm with heavy hail".
Proof.
  intros Hin Hget. apply WEATHER_CODES_get_Done in Hget.
  unfold py_in_ints in Hin. cbn [existsb] in Hin.
  destruct (json_int_key code) as [n|] eqn:Hkey.
  - rewrite (py_eq_int_key code n 95 Hkey), (py_eq_int_key code n 96 Hkey),
      (py_eq_int_key code n 99 Hkey) in Hin.
    destruct (Z.eqb_spec n 95) as [Hn|_].
    { left. rewrite Hget, Hn. vm_compute. reflexivity. }
    destruct (Z.eqb_spec n 96) as [Hn|_].
    { right. left. rewrite Hget, Hn. vm_compute. reflexivity. }
    destruct (Z.eqb_spec n 99) as [Hn|_].
    { right. right. rewrite Hget, Hn. vm_compute. reflexivity. }
    discriminate Hin.
  - rewrite (py_eq_int_no_key code 95 Hkey), (py_eq_int_no_key code 96 Hkey),
      (py_eq_int_no_key code 99 Hkey) in Hin. discriminate Hin.
Qed.

Lemma py_bind_Done {A B} (m : py A) (k : A -> py B) (r : B) :
  m ≫= k = Done r -> exists a, m = Done a /\ k a = Done r.
Proof. destruct m as [a|e]; [by exists a|discriminate]. Qed.

Lemma alert_message_alert date type severity message :
  alert_message (alert date type severity message) = Some (JStr message).
Proof. reflexivity. Qed.

Lemma day_alerts_messages py_str day alerts :
  day_alerts py_str day = Done alerts ->
  Forall (fun a => alert_message a <> Some (JStr "Thunderstorm expected")) alerts.
Proof.
  unfold day_alerts. intros H.
  repeat match type of H with
         | (py_get ?v ?k ?d ≫= _) = _ =>
             destruct (py_get v k d) as [?x|?e]; py_step_in H; [|discriminate H]
         end.
  apply py_bind_Done in H as (heavy & Hheavy & H).
  apply py_bind_Done in H as (heat & Hheat & H).
  apply py_bind_Done in H as (storm & Hstorm & H).
  py_done H. rewrite !Forall_app. repeat split.
  - destruct (truthy x0); [|py_done Hheavy; constructor].
    apply py_bind_Done in Hheavy as ([] & _ & Hheavy);
      [|py_done Hheavy; constructor].
    apply py_bind_Done in Hheavy as (date & _ & Hheavy).
    apply py_bind_Done in Hheavy as (high & _ & Hheavy).
    py_done Hheavy. constructor; [|constructor].
    rewrite alert_message_alert. simpl. intros Heq. discriminate Heq.
  - destruct (truthy x2); [|py_done Hheat; constructor].
    apply py_bind_Done in Hheat as ([] & _ & Hheat);
      [|py_done Hheat; constructor].
    apply py_bind_Done in Hheat as (date & _ & Hheat).
    py_done Hheat. constructor; [|constructor].
    rewrite alert_message_alert. simpl. intros Heq. discriminate Heq.
  - destruct (py_in_ints _ _) eqn:Hin; [|py_done Hstorm; constructor].
    apply py_bind_Done in Hstorm as (date & _ & Hstorm).
    apply py_bind_Done in Hstorm as (message & Hget & Hstorm).
    py_done Hstorm. constructor; [|constructor].
    rewrite alert_message_alert.
    destruct (thunderstorm_description _ _ _ Hin Hget) as [ -> | [ -> | -> ] ];
      intros Heq; discriminate Heq.
Qed.

(** X16.  The fallback text of the thunderstorm alert is never used: no
    alert that the scan of [get_extreme_events] returns, for any forecast
    whatever, has the message ["Thunderstorm expected"]; a thunderstorm
    alert always carries the table's description of code 95, 96 or 99. *)
Theorem thunderstorm_fallback_unused (py_str : json -> string)
    (days alerts : list json) :
  scan_days py_str days = Done alerts ->
  Forall (fun a => alert_message a <> Some (JStr "Thunderstorm expected")) alerts.
Proof.
  revert alerts. induction days as [|day days IH]; intros alerts H.
  - py_done H. constructor.
  - cbn [scan_days] in H.
    apply py_bind_Done in H as (here & Hhere & H).
    apply py_bind_Done in H as (later & Hlater & H).
    py_done H. apply Forall_app. split.
    + by eapply day_alerts_messages.
    + by apply IH.
Qed.

Lemma thunderstorm_fallback_unused_witness :
  scan_days (fun _ => "")
    [JObj [("date", JStr "d"); ("conditions", JObj [("code", JFloat (FFinite (99 # 1)))])]]
  = Done [alert (JStr "d") "THUNDERSTORM" "HIGH" "Thunderstorm with heavy hail"]
  /\ Forall (fun a => alert_message a <> Some (JStr "Thunderstorm expected"))
       [alert (JStr "d") "THUNDERSTORM" "HIGH" "Thunderstorm with heavy hail"].
Proof.
  assert (H : scan_days (fun _ => "")
    [JObj [("date", JStr "d"); ("conditions", JObj [("code", JFloat (FFinite (99 # 1)))])]]
  = Done [alert (JStr "d") "THUNDERSTORM" "HIGH" "Thunderstorm with heavy hail"]).
  { vm_compute. reflexivity. }
  exact (conj H (thunderstorm_fallback_unused _ _ _ H)).
Defined.

(** ** The forecast endpoint *)

Lemma range_check_spec (a b : Z) (x : pyfloat) :
  int_le_float a x && float_le_int x b = true
  <-> exists q, x = FFinite q /\ (inject_Z a <= q <= inject_Z b)%Q.
Proof.
  destruct x as [q| | |]; simpl.
  - rewrite andb_true_iff, !Qle_bool_iff. split.
    + intros [H1 H2]. by exists q.
    + intros (q' & [= <-] & H). exact H.
  - split; [discriminate|]. by intros (q & [=] & _).
  - split; [discriminate|]. by intros (q & [=] & _).
  - split; [discriminate|]. by intros (q & [=] & _).
Qed.

Lemma valid_coordinates_spec latitude longitude :
  valid_coordinates latitude longitude
  <-> int_le_float (-90) latitude && float_le_int latitude 90 = true
      /\ int_le_float (-180) longitude && float_le_int longitude 180 = true.
Proof.
  rewrite !range_check_spec. unfold valid_coordinates. split.
  - intros (p & q & -> & -> & Hp & Hq). split; [by exists p|by exists q].
  - intros [(p & -> & Hp) (q & -> & Hq)]. by exists p, q.
Qed.


(** X18.  When the upstream call succeeds, the forecast endpoint labels
    the result with the caller's standing: [authenticated] tells whether a
    key was presented, and [tier] is the tier stored in the record that
    [verify_api_key] resolved ([free] or [pro] for the demo keys, the tier
    given at issuance otherwise; the ["free"] fallback of the lookup is
    never used) and ["public"] for a caller without key. *)
Theorem forecast_tier_label (cf cp : string) (ops : list op)
    (client : pyfloat -> pyfloat -> Z -> gmap string json)
    (latitude longitude : pyfloat) (days : Z)
    (api_key : option string) (key_info : option dict) :
  verify_api_key (run_ops (initial_state cf cp) ops) api_key = Return key_info ->
  valid_coordinates latitude longitude ->
  truthy (default JNull (client latitude longitude days !! "success")) = true ->
  exists tier,
    get_forecast client latitude longitude days key_info
    = Body (<[ "tier" := JStr tier ]>
              (<[ "authenticated" := JBool (truthy_key api_key) ]>
                 (client latitude longitude days)))
    /\ match key_info with
       | Some d => d !! "tier" = Some (VStr tier)
       | None => truthy_key api_key = false /\ tier = "public"
       end.
Proof.
  intros Hverify [Hlat Hlon]%valid_coordinates_spec Hok.
  unfold get_forecast. rewrite Hlat, Hlon. cbn [negb]. cbv zeta.
  rewrite Hok. cbn [negb].
  unfold verify_api_key in Hverify.
  destruct (truthy_key api_key) eqn:Hkey; cbn [negb] in Hverify.
  - cbv zeta in Hverify.
    destruct (get_key_info _ (default "" api_key)) as [d|] eqn:Hres;
      [|discriminate Hverify].
    rewrite (truthy_info_resolved _ _ _ _ _ Hres) in Hverify.
    cbn [negb] in Hverify. injection Hverify as <-.
    rewrite (truthy_info_resolved _ _ _ _ _ Hres).
    destruct (get_key_info_origin _ _ _ _ _ Hres)
      as [[_ ->]|[[_ ->]|(n & t & tok & c & _ & _ & ->)]].
    + by exists "free".
    + by exists "pro".
    + by exists t.
  - injection Hverify as <-. exists "public". by repeat split.
Qed.

Lemma forecast_tier_label_witness :
  verify_api_key (run_ops (initial_state "a" "b") []) (Some demo_pro_secret)
  = Return (Some (demo_pro_record "b"))
  /\ valid_coordinates (FFinite (286139 # 10000)) (FFinite (772090 # 10000))
  /\ exists tier,
       get_forecast (fun _ _ _ => {[ "success" := JBool true ]})
         (FFinite (286139 # 10000)) (FFinite (772090 # 10000)) 15
         (Some (demo_pro_record "b"))
       = Body (<[ "tier" := JStr tier ]>
                 (<[ "authenticated" := JBool true ]>
                    {[ "success" := JBool true ]}))
       /\ demo_pro_record "b" !! "tier" = Some (VStr tier).
Proof.
  assert (H1 : verify_api_key (run_ops (initial_state "a" "b") [])
                 (Some demo_pro_secret) = Return (Some (demo_pro_record "b"))).
  { reflexivity. }
  assert (H2 : valid_coordinates (FFinite (286139 # 10000))
                 (FFinite (772090 # 10000))).
  { eexists _, _. repeat split; unfold Qle; simpl; lia. }
  split; [exact H1|]. split; [exact H2|].
  exact (forecast_tier_label "a" "b" [] (fun _ _ _ => {[ "success" := JBool true ]})
           _ _ 15 (Some demo_pro_secret) _ H1 H2 eq_refl).
Defined.
